(** * light-cpp-common: a shallow embedding of the LCC runtime

    The development follows the headers of [include/lightc]:

    - [LockedQueue]   LockedQueue.h   (queue with lock, blocking dequeue, shutdown)
    - [EventDriven]   EventDriven.h   (consumer loop with exception containment)
    - [Signal]        Signal.h        (pending-signal slot and single-waiter flag)
    - [TimerManager]  TimerManager.h  (one-shot timers on detached threads)
    - [Logger]        Logger.h        (log mask and table of kind labels)
    - [ProcessBase]   ProcessBase.h   (handler registries, dispatch, threads)
    - [IniFile]       IniFile.h       (line-oriented configuration reader and writer)
    - [TimeStamp]     TimeStamp.h     (differences of time points)

    Conventions.  Integers of the C++ code are [Z]; where the code narrows
    an integer the wrap-around is written out.  [std::unordered_map] is
    stdpp's [gmap].  A member function becomes a function on the record of
    the members it touches; a function that can throw, or whose behaviour
    can be undefined, returns an [outcome].  [Undefined s] carries the
    state in which the offending operation is executed.  What the system
    does with signals (for which numbers [std::signal] succeeds, which
    signals end a process that has no handler for them) is a parameter
    of [Signal] and of the signal thread of [ProcessBase]. *)

From Stdlib Require Import ZArith Ascii.
From stdpp Require Import gmap strings list fin_maps.

Local Open Scope Z_scope.

(** ** Exceptions and outcomes *)

(** The exception classes that occur in the sources.  [std::logic_error]
    derives from [std::exception]; [other_exception] stands for a thrown
    object of a type that does not derive from [std::exception]. *)
Inductive exception : Type :=
  | std_logic_error (what : string)
  | std_exception (what : string)
  | other_exception.

(** [catch (const std::exception& ex)] matches exactly the exceptions for
    which [ex.what()] exists. *)
Definition what (e : exception) : option string :=
  match e with
  | std_logic_error w => Some w
  | std_exception w => Some w
  | other_exception => None
  end.

(** The ways a call can end: it returns, it throws, or it executes an
    operation whose behaviour is undefined (the C++ standard puts no
    requirement on the program from there on). *)
Inductive outcome (S : Type) : Type :=
  | Normal (s : S)
  | Throws (e : exception) (s : S)
  | Undefined (s : S).
Arguments Normal {S} s.
Arguments Throws {S} e s.
Arguments Undefined {S} s.

(** Sequencing: what follows a call runs only when the call returns. *)
Definition and_then {S : Type} (m : outcome S) (k : S → outcome S) : outcome S :=
  match m with
  | Normal s => k s
  | Throws e s => Throws e s
  | Undefined s => Undefined s
  end.

Notation "'do' s <- m ; k" := (and_then m (λ s, k))
  (at level 10, s name, m at level 100, k at level 200).

(** [try { body } catch (...) { handler }] where the handler itself returns. *)
Definition try_catch {S : Type} (body : outcome S) (handler : exception → S → S)
  : outcome S :=
  match body with
  | Normal s => Normal s
  | Throws e s => Normal (handler e s)
  | Undefined s => Undefined s
  end.

(** ** LockedQueue.h *)

Module LockedQueue.
Section LockedQueue.
Context {T_ : Type}.

(** [std::queue<T_> m_que] with the front at the head of the list, and
    [std::atomic_bool m_bShutdown].  The mutex and the condition variable
    are represented by the atomicity of the functions below. *)
Record t : Type := mk { m_que : list T_; m_bShutdown : bool }.

(** The constructor. *)
Definition create : t := {| m_que := []; m_bShutdown := false |}.

Definition Enq (pcData : T_) (q : t) : bool * t :=
  if m_bShutdown q then (false, q)
  else (true, {| m_que := m_que q ++ [pcData]; m_bShutdown := m_bShutdown q |}).

Definition Size (q : t) : nat := length (m_que q).

Definition Shutdown (q : t) : t :=
  {| m_que := m_que q; m_bShutdown := true |}.

Definition IsShutdown (q : t) : bool := m_bShutdown q.

(** While a caller of [Deq] sleeps on [m_cvQue] the mutex is released, and
    other threads may run [Enq] or [Shutdown] on the same queue. *)
Inductive other_thread : Type :=
  | OtherEnq (x : T_)
  | OtherShutdown.

Definition run_other (o : other_thread) (q : t) : t :=
  match o with
  | OtherEnq x => snd (Enq x q)
  | OtherShutdown => Shutdown q
  end.

(** The predicate of both waits: [!m_que.empty() || m_bShutdown]. *)
Definition wait_pred (q : t) : bool :=
  negb (bool_decide (m_que q = [])) || m_bShutdown q.

(** [m_cvQue.wait(lock, pred)] and [m_cvQue.wait_for(lock, d, pred)]: the
    predicate is tested under the lock; while it is false the caller
    sleeps and the other threads run.  [others] lists what they do before
    the wait gives up (the time-out for [wait_for]; never for [wait]).
    The result is the last value of the predicate and the queue then. *)
Fixpoint cv_wait (others : list other_thread) (q : t) : bool * t :=
  if wait_pred q then (true, q)
  else match others with
       | [] => (false, q)
       | o :: others' => cv_wait others' (run_other o q)
       end.

Inductive DeqResult : Type :=
  | DeqReturn (b : bool) (pcData : T_) (q : t)
  | DeqBlocked (q : t)          (* [wait] never returns *)
  | DeqUndefined (q : t).       (* [front()] of an empty queue *)

(** The part of [Deq] after the wait. *)
Definition Deq_take (bReady : bool) (pcData : T_) (q : t) : DeqResult :=
  if negb bReady || (m_bShutdown q && bool_decide (m_que q = []))
  then DeqReturn false pcData q
  else match m_que q with
       | x :: rest =>
           DeqReturn true x {| m_que := rest; m_bShutdown := m_bShutdown q |}
       | [] => DeqUndefined q
       end.

(** [pcData] is the out-parameter: its value before the call is passed
    in, its value after the call is in the result. *)
Definition Deq (pcData : T_) (unTimeout : Z) (others : list other_thread)
    (q : t) : DeqResult :=
  if unTimeout =? 0 then
    match cv_wait others q with
    | (true, q1) => Deq_take true pcData q1
    | (false, q1) => DeqBlocked q1
    end
  else
    let '(bReady, q1) := cv_wait others q in
    Deq_take bReady pcData q1.

(** A sequence of [Enq] calls by one thread, with the results. *)
Fixpoint EnqAll (xs : list T_) (q : t) : list bool * t :=
  match xs with
  | [] => ([], q)
  | x :: xs' =>
      let '(b, q1) := Enq x q in
      let '(bs, q2) := EnqAll xs' q1 in
      (b :: bs, q2)
  end.

(** A sequence of [Deq] calls by one thread on the same variable, each
    with its time-out and what the other threads do during its wait.  The
    results are the returned flag and the variable after each call; the
    sequence ends early when a call does not return. *)
Fixpoint DeqAll (calls : list (Z * list other_thread)) (pcData : T_) (q : t)
  : list (bool * T_) * t :=
  match calls with
  | [] => ([], q)
  | (unTimeout, others) :: calls' =>
      match Deq pcData unTimeout others q with
      | DeqReturn b x q1 =>
          let '(rs, q2) := DeqAll calls' x q1 in
          ((b, x) :: rs, q2)
      | _ => ([], q)
      end
  end.

(** Any call of the public interface, and the queue it leaves. *)
Inductive call : Type :=
  | CallEnq (pcData : T_)
  | CallDeq (pcData : T_) (unTimeout : Z) (others : list other_thread)
  | CallShutdown.

Definition run_call (q : t) (c : call) : t :=
  match c with
  | CallEnq x => snd (Enq x q)
  | CallDeq pcData unTimeout others =>
      match Deq pcData unTimeout others q with
      | DeqReturn _ _ q1 => q1
      | DeqBlocked q1 => q1
      | DeqUndefined q1 => q1
      end
  | CallShutdown => Shutdown q
  end.

(** The item a call hands to its caller: that of a [Deq] that returns
    [true]. *)
Definition delivered_by (q : t) (c : call) : list T_ :=
  match c with
  | CallDeq pcData unTimeout others =>
      match Deq pcData unTimeout others q with
      | DeqReturn true x _ => [x]
      | _ => []
      end
  | _ => []
  end.

(** The item a call brings into the queue: that of the caller's own [Enq]
    when it returns [true], or that of the [Enq] of another thread which
    ends the wait of the caller's [Deq]. *)
Definition accepted_by (q : t) (c : call) : list T_ :=
  match c with
  | CallEnq x => if (Enq x q).1 then [x] else []
  | CallDeq _ _ others =>
      if wait_pred q then []
      else match others with
           | OtherEnq x :: _ => [x]
           | _ => []
           end
  | CallShutdown => []
  end.

(** A sequence of calls: the items accepted, the items delivered, and the
    queue left. *)
Fixpoint history (q : t) (calls : list call) : list T_ * list T_ * t :=
  match calls with
  | [] => ([], [], q)
  | c :: calls' =>
      let '(acc, del, q') := history (run_call q c) calls' in
      (accepted_by q c ++ acc, delivered_by q c ++ del, q')
  end.

End LockedQueue.
Arguments t : clear implicits.
Arguments other_thread : clear implicits.
Arguments DeqResult : clear implicits.
Arguments call : clear implicits.
End LockedQueue.

(** ** EventDriven.h

    [MessageDriven.h] is the same class under other names ([OnMessage],
    [LogOnMessageException], [m_queMessage]); one embedding serves both. *)

Module EventDriven.
Section EventDriven.
Context {TEvent_ D : Type}.

(** The base-class member [m_queEvent], the stream [std::cerr] of the
    default hooks, and the members of the derived class. *)
Record t : Type := mk {
  m_queEvent : LockedQueue.t TEvent_;
  cerr : list string;
  derived : D
}.

Definition with_queue (q : LockedQueue.t TEvent_) (s : t) : t :=
  {| m_queEvent := q; cerr := cerr s; derived := derived s |}.

Definition Post (msg : TEvent_) (s : t) : bool * t :=
  let '(b, q) := LockedQueue.Enq msg (m_queEvent s) in (b, with_queue q s).

Definition Shutdown (s : t) : t :=
  with_queue (LockedQueue.Shutdown (m_queEvent s)) s.

Definition IsShutdown (s : t) : bool := LockedQueue.IsShutdown (m_queEvent s).

(** The defaults of the two virtual hooks write a line to [std::cerr]. *)
Definition LogOnEventException_default (what : string) (s : t) : t :=
  {| m_queEvent := m_queEvent s;
     cerr := cerr s ++ ["Exception in OnEvent: " +:+ what];
     derived := derived s |}.

Definition LogOnEventException0_default (s : t) : t :=
  {| m_queEvent := m_queEvent s;
     cerr := cerr s ++ ["Unknown Exception in OnEvent"];
     derived := derived s |}.

(** The virtual functions: the pure virtual [vOnEvent] and the two
    overloads of [LogOnEventException].  The callback has the whole
    object at hand (it may [Post]); the hooks are loggers and return. *)
Variable vOnEvent : TEvent_ → t → outcome t.
Variable LogOnEventException : string → t → t.
Variable LogOnEventException0 : t → t.

(** The two [catch] clauses of [Run], in their order. *)
Definition Run_catch (e : exception) (s : t) : t :=
  match what e with
  | Some w => LogOnEventException w s      (* catch (const std::exception& ex) *)
  | None => LogOnEventException0 s         (* catch (...) *)
  end.

Inductive RunResult : Type :=
  | RunReturn (s : t)                      (* [fnContinue()] was false *)
  | RunThrows (e : exception) (s : t)      (* an exception left [Run] *)
  | RunUndefined (s : t)
  | RunBlocked (s : t)                     (* [Deq] never returns *)
  | RunLooping (msg : TEvent_) (s : t).    (* at the loop head, schedule used up *)

(** [Run(fnContinue, unTimeout)].  The loop need not end, so it is
    unrolled along a schedule: one entry for each iteration, saying what
    the other threads do to the queue during that iteration's [Deq].
    [msg] is the local variable of [Run], which lives across iterations. *)
Fixpoint Run (fnContinue : t → bool) (unTimeout : Z)
    (sched : list (list (LockedQueue.other_thread TEvent_)))
    (msg : TEvent_) (s : t) : RunResult :=
  if fnContinue s then
    match sched with
    | [] => RunLooping msg s
    | others :: sched' =>
        match LockedQueue.Deq msg unTimeout others (m_queEvent s) with
        | LockedQueue.DeqReturn true msg' q =>
            match try_catch (vOnEvent msg' (with_queue q s)) Run_catch with
            | Normal s' => Run fnContinue unTimeout sched' msg' s'
            | Throws e s' => RunThrows e s'
            | Undefined s' => RunUndefined s'
            end
        | LockedQueue.DeqReturn false msg' q =>
            Run fnContinue unTimeout sched' msg' (with_queue q s)
        | LockedQueue.DeqBlocked q => RunBlocked (with_queue q s)
        | LockedQueue.DeqUndefined q => RunUndefined (with_queue q s)
        end
    end
  else RunReturn s.

(** What the body of one iteration leaves once [Deq] has put [msg] into
    the variable: the state after the callback, or after the hook when the
    callback threw. *)
Definition dispatched (s : t) (msg : TEvent_) : t :=
  match try_catch (vOnEvent msg s) Run_catch with
  | Normal s' => s'
  | Throws _ s' => s'
  | Undefined s' => s'
  end.

(** A condition on the virtual functions: the callback leaves the queue alone and has defined behaviour; the
    hooks leave the queue alone. *)
Definition keeps_queue : Prop :=
  (∀ msg s, match vOnEvent msg s with
            | Normal s' | Throws _ s' => m_queEvent s' = m_queEvent s
            | Undefined _ => False
            end)
  ∧ (∀ w s, m_queEvent (LogOnEventException w s) = m_queEvent s)
  ∧ (∀ s, m_queEvent (LogOnEventException0 s) = m_queEvent s).

(** The same with the removal of [msg] from the front of the queue. *)
Definition taken_and_dispatched (s : t) (msg : TEvent_) : t :=
  dispatched
    (with_queue
       {| LockedQueue.m_que := tail (LockedQueue.m_que (m_queEvent s));
          LockedQueue.m_bShutdown := LockedQueue.m_bShutdown (m_queEvent s) |}
       s)
    msg.

End EventDriven.
Arguments t : clear implicits.
Arguments RunResult : clear implicits.
End EventDriven.

(** ** Signal.h *)

Module Signal.

(** [static_cast<int>] of a 64-bit value: reduction modulo 2^32 into the
    range of [int]. *)
Definition to_int (z : Z) : Z := (z + 2 ^ 31) mod 2 ^ 32 - 2 ^ 31.

(** The two inline globals, and the signal numbers whose disposition has
    been set to [vSignalHandler] by [std::signal]. *)
Record globals : Type := mk {
  g_snSignal : Z;
  g_bWaitInUse : bool;
  installed : gset Z
}.

Definition initial : globals :=
  {| g_snSignal := 0; g_bWaitInUse := false; installed := ∅ |}.

Definition vSignalHandler (snSig : Z) (g : globals) : globals :=
  {| g_snSignal := snSig; g_bWaitInUse := g_bWaitInUse g;
     installed := installed g |}.

Definition Raise (snSig : Z) (g : globals) : globals :=
  if snSig =? 0 then g
  else {| g_snSignal := to_int snSig; g_bWaitInUse := g_bWaitInUse g;
          installed := installed g |}.

Section Signal.

(** The system the process runs on.  [catchable sig] says that
    [std::signal(sig, handler)] succeeds; for a number that is no signal
    (0, a negative one, one beyond the last) and for a signal that cannot
    be caught (SIGKILL, SIGSTOP) it returns [SIG_ERR] and sets no
    handler.  [fatal sig] says that signal [sig], delivered while no
    handler is set for it, ends the process: the default action of most
    signals.  (A signal that is ignored, or that stops the process until
    it is continued, leaves these globals as they are.) *)
Variable catchable : Z → bool.
Variable fatal : Z → bool.

(** What happens elsewhere while [Wait] sleeps: the system delivers a
    signal, or a thread calls [Raise]. *)
Inductive event : Type :=
  | Delivered (snSig : Z)
  | Raised (snSig : Z).

(** The process after an event: it goes on with these globals, or it has
    been ended with them. *)
Inductive alive : Type :=
  | Lives (g : globals)
  | Ends (g : globals).

(** A delivered signal runs [vSignalHandler] when that is its disposition
    (nothing under [lightc] ever sets another one, and a disposition set
    by [std::signal] is taken to stay after a delivery, as with glibc);
    otherwise the system takes the action the signal had from the
    start. *)
Definition run_event (g : globals) (ev : event) : alive :=
  match ev with
  | Delivered n =>
      if decide (n ∈ installed g) then Lives (vSignalHandler n g)
      else if fatal n then Ends g
      else Lives g
  | Raised n => Lives (Raise n g)
  end.

(** The events of one sleep, in their order, as long as the process
    lives. *)
Fixpoint sleep_for (evs : list event) (g : globals) : alive :=
  match evs with
  | [] => Lives g
  | ev :: evs' =>
      match run_event g ev with
      | Lives g' => sleep_for evs' g'
      | Ends g' => Ends g'
      end
  end.

(** [std::signal(static_cast<int>(snSignal), vSignalHandler)]; the code
    does not look at the result. *)
Definition install (g : globals) (snSignal : Z) : globals :=
  if catchable (to_int snSignal) then
    {| g_snSignal := g_snSignal g; g_bWaitInUse := g_bWaitInUse g;
       installed := {[ to_int snSignal ]} ∪ installed g |}
  else g.

Inductive WaitResult : Type :=
  | WaitReturn (snSignal : Z) (g : globals)
  | WaitThrows (e : exception) (g : globals)
  | WaitPolling (g : globals)      (* still in the loop, schedule used up *)
  | WaitEnded (g : globals).       (* the process was ended during a sleep *)

(** The [while (true)] loop of [Wait], unrolled along the events of each
    sleep of [unCheckIntervalMs]. *)
Fixpoint Wait_loop (sleeps : list (list event)) (g : globals) : WaitResult :=
  let snSignal := g_snSignal g in                       (* exchange(0) *)
  let g1 := {| g_snSignal := 0; g_bWaitInUse := g_bWaitInUse g;
               installed := installed g |} in
  if negb (snSignal =? 0) then
    WaitReturn snSignal
      {| g_snSignal := g_snSignal g1; g_bWaitInUse := false;
         installed := installed g1 |}
  else
    match sleeps with
    | [] => WaitPolling g1
    | evs :: sleeps' =>
        match sleep_for evs g1 with
        | Lives g2 => Wait_loop sleeps' g2
        | Ends g2 => WaitEnded g2
        end
    end.

Definition Wait (listSignal : list Z) (sleeps : list (list event))
    (g : globals) : WaitResult :=
  if g_bWaitInUse g then               (* compare_exchange_strong fails *)
    WaitThrows
      (std_logic_error "LCC::Signal::Wait called while another Wait is in progress")
      g
  else
    let g1 := {| g_snSignal := g_snSignal g; g_bWaitInUse := true;
                 installed := installed g |} in
    Wait_loop sleeps (foldl install g1 listSignal).

End Signal.
End Signal.

(** ** TimerManager.h

    Each timer is a thread that sleeps and then runs the rest of its
    function in one piece ([wake]).  The threads that still sleep are kept
    in a table of their own, since a detached thread goes on sleeping; how
    long each sleeps is not represented, so that they may wake in any
    order. *)

Module TimerManager.
Section TimerManager.
Context {TEvent_ D : Type}.

(** What the thread function captured. *)
Record sleeper : Type := mk_sleeper {
  th_unTimerId : Z;
  th_unDelayMs : Z;
  th_pcMsg : TEvent_
}.

(** [m_bShutdown]; [m_mapTimers], each [std::thread] named by the number
    of its creation; the threads that have not woken yet; the number of
    threads made so far. *)
Record t : Type := mk {
  m_bShutdown : bool;
  m_mapTimers : gmap Z nat;
  threads : gmap nat sleeper;
  spawned : nat
}.

(** The constructor. *)
Definition create : t :=
  {| m_bShutdown := false; m_mapTimers := ∅; threads := ∅; spawned := 0 |}.

(** [detach()] lets the thread go on; the entry is erased. *)
Definition StopTimer (unTimerId : Z) (tm : t) : t :=
  {| m_bShutdown := m_bShutdown tm;
     m_mapTimers := delete unTimerId (m_mapTimers tm);
     threads := threads tm;
     spawned := spawned tm |}.

Definition StartTimer (unTimerId unDelayMs : Z) (pcMsg : TEvent_) (tm : t) : t :=
  let tm1 := StopTimer unTimerId tm in
  let th := spawned tm1 in
  {| m_bShutdown := m_bShutdown tm1;
     m_mapTimers := <[unTimerId := th]> (m_mapTimers tm1);
     threads := <[th := mk_sleeper unTimerId unDelayMs pcMsg]> (threads tm1);
     spawned := S th |}.

Definition StopAllTimers (tm : t) : t :=
  {| m_bShutdown := true; m_mapTimers := ∅; threads := threads tm;
     spawned := spawned tm |}.

Definition vRemoveTimer (unTimerId : Z) (tm : t) : t :=
  {| m_bShutdown := m_bShutdown tm;
     m_mapTimers := delete unTimerId (m_mapTimers tm);
     threads := threads tm;
     spawned := spawned tm |}.

(** The thread function of thread [th] after its [sleep_for].
    [receiver] is the object [m_wpReceiver.lock()] yields, [None] when
    it is gone. *)
Definition wake (th : nat) (tm : t) (receiver : option (EventDriven.t TEvent_ D))
  : t * option (EventDriven.t TEvent_ D) :=
  match threads tm !! th with
  | None => (tm, receiver)
  | Some sl =>
      let tm1 := {| m_bShutdown := m_bShutdown tm; m_mapTimers := m_mapTimers tm;
                    threads := delete th (threads tm); spawned := spawned tm |} in
      if m_bShutdown tm1 then (tm1, receiver)
      else
        let receiver' :=
          match receiver with
          | Some spReceiver => Some (EventDriven.Post (th_pcMsg sl) spReceiver).2
          | None => None
          end in
        (vRemoveTimer (th_unTimerId sl) tm1, receiver')
  end.

(** The calls of the interface and the waking of the threads, in any
    order. *)
Inductive step : Type :=
  | DoStartTimer (unTimerId unDelayMs : Z) (pcMsg : TEvent_)
  | DoStopTimer (unTimerId : Z)
  | DoStopAllTimers
  | DoWake (th : nat).

Definition run_step (st : t * option (EventDriven.t TEvent_ D)) (a : step)
  : t * option (EventDriven.t TEvent_ D) :=
  match a with
  | DoStartTimer unTimerId unDelayMs pcMsg =>
      (StartTimer unTimerId unDelayMs pcMsg st.1, st.2)
  | DoStopTimer unTimerId => (StopTimer unTimerId st.1, st.2)
  | DoStopAllTimers => (StopAllTimers st.1, st.2)
  | DoWake th => wake th st.1 st.2
  end.

End TimerManager.
Arguments t : clear implicits.
Arguments sleeper : clear implicits.
Arguments step : clear implicits.
End TimerManager.

(** ** Logger.h (the part behind the [LCC_LOG_*] macros, and the kind labels) *)

Module Logger.

(** An argument of the variadic [WriteFormatWithContext]. *)
Inductive arg : Type :=
  | ArgStr (s : string)
  | ArgInt (z : Z).

(** A posted message: the kind bit, the format and its arguments.  The
    time stamp, label and source position that the code adds to the text
    are left out. *)
Record line : Type := mk_line {
  line_kind : Z;
  line_fmt : string;
  line_args : list arg
}.

Definition k_unLogKindIndexLccDebug : Z := 2.
Definition k_unLogKindIndexLccInfo  : Z := 5.
Definition k_unLogKindIndexLccAlert : Z := 6.
Definition k_unLogKindIndexLccError : Z := 7.

(** The singleton: its mask and the queue of its [MessageDriven] base. *)
Record t : Type := mk {
  m_unLogMask : Z;
  m_queMessage : LockedQueue.t line
}.

(** The constructor: [m_unLogMask(0xFFFFFFFF)]. *)
Definition create : t :=
  {| m_unLogMask := 0xFFFFFFFF; m_queMessage := LockedQueue.create |}.

Definition Write (unKind : Z) (message : line) (lg : t) : t :=
  if negb (Z.land (m_unLogMask lg) unKind =? 0)
  then {| m_unLogMask := m_unLogMask lg;
          m_queMessage := snd (LockedQueue.Enq message (m_queMessage lg)) |}
  else lg.

Definition WriteFormatWithContext (unLogKindIndex : Z) (fmt : string)
    (args : list arg) (lg : t) : t :=
  let unKind := Z.shiftl 1 unLogKindIndex mod 2 ^ 32 in
  if Z.land (m_unLogMask lg) unKind =? 0 then lg
  else Write unKind
         {| line_kind := unKind; line_fmt := fmt; line_args := args |} lg.

Definition k_unLogReserveKindBits : Z := 16.
Definition k_unLogKindBits : Z := 32.

(** [std::snprintf(buf, 16, "%-15.15s", pszLabel)] for the width [n] = 15:
    at most [n] characters of the label, then spaces up to [n]. *)
Fixpoint left_justified (n : nat) (pszLabel : string) : string :=
  match n with
  | O => ""
  | S n' =>
      match pszLabel with
      | "" => String " " (left_justified n' "")
      | String c rest => String c (left_justified n' rest)
      end
  end.

(** The member [m_szLogKindLabel] is a list of the 32 labels; a label
    pointer is an [option], [None] for [nullptr]; [unLogKindIndex] is a
    [uint8_t], a number from 0 to 255. *)
Definition RegisterLogKindLabelByIndex (unLogKindIndex : Z) (pszLabel : option string)
    (m_szLogKindLabel : list string) : bool * list string :=
  match pszLabel with
  | None => (false, m_szLogKindLabel)
  | Some label =>
      if k_unLogKindBits <=? unLogKindIndex then (false, m_szLogKindLabel)
      else (true, <[Z.to_nat unLogKindIndex := left_justified 15 label]>
                    m_szLogKindLabel)
  end.

Definition RegisterCustomLogKindLabel (unLogKindIndex : Z) (pszLabel : option string)
    (m_szLogKindLabel : list string) : bool * list string :=
  match pszLabel with
  | None => (false, m_szLogKindLabel)
  | Some _ =>
      if unLogKindIndex <? k_unLogReserveKindBits then (false, m_szLogKindLabel)
      else if k_unLogKindBits <=? unLogKindIndex then (false, m_szLogKindLabel)
      else RegisterLogKindLabelByIndex unLogKindIndex pszLabel m_szLogKindLabel
  end.

Definition InitLogKindLabels (m_szLogKindLabel : list string) : list string :=
  let undef :=
    foldl (λ tab i, (RegisterLogKindLabelByIndex i (Some "UNDEF") tab).2)
      m_szLogKindLabel (Z.of_nat <$> seq 0 32) in
  foldl (λ tab '(i, label), (RegisterLogKindLabelByIndex i (Some label) tab).2)
    undef
    [(0, "LCC_DUMP"); (1, "LCC_DETAIL"); (k_unLogKindIndexLccDebug, "LCC_DEBUG");
     (3, "LCC_SEND"); (4, "LCC_RECV"); (k_unLogKindIndexLccInfo, "LCC_INFO");
     (k_unLogKindIndexLccAlert, "LCC_ALERT"); (k_unLogKindIndexLccError, "LCC_ERROR");
     (8, "DUMP"); (9, "DETAIL"); (10, "DEBUG"); (11, "SEND"); (12, "RECV");
     (13, "INFO"); (14, "ALERT"); (15, "ERROR")].

End Logger.

(** ** ProcessEvent.h *)

Record MessageEvent : Type := mk_MessageEvent {
  strEventName : string;
  spPayload : option (list Byte.byte)
}.

Record TimerEvent : Type := mk_TimerEvent { unTimerId : Z }.

Record SignalEvent : Type := mk_SignalEvent { snSignal : Z }.

Inductive ProcessEvent : Type :=
  | EvMessage (cEvent : MessageEvent)
  | EvTimer (cEvent : TimerEvent)
  | EvSignal (cEvent : SignalEvent).

(** [std::unordered_map::emplace]: the element is inserted only when the
    container has no element with that key; otherwise the container is
    left as it is. *)
Definition emplace `{Countable K} {V : Type} (k : K) (v : V) (m : gmap K V)
  : gmap K V :=
  match m !! k with
  | Some _ => m
  | None => <[k := v]> m
  end.

(** Conversions between [int64_t] and [uint64_t]. *)
Definition to_uint64 (z : Z) : Z := z mod 2 ^ 64.
Definition to_int64 (z : Z) : Z := (z + 2 ^ 63) mod 2 ^ 64 - 2 ^ 63.

(** ** ProcessBase.h *)

Module ProcessBase.

(** The three [std::function] types; [W] is what the handlers of the
  application work on. *)
Abbreviation fnMessageHandler W := (MessageEvent → W → outcome W).
Abbreviation fnTimerHandler W := (TimerEvent → W → outcome W).
Abbreviation fnSignalHandler W := (SignalEvent → W → outcome W).

Section ProcessBase.
Context {W : Type}.

(** The macro [SIGUSR2] of <csignal>, and the clock behind
    [TimeStamp::Now()] in milliseconds. *)
Variable SIGUSR2 : Z.
Variable Now : W → Z.

(** The system, as in [Signal]. *)
Variable catchable : Z → bool.
Variable fatal : Z → bool.

(** The members, with the two pieces of process-wide state the member
    functions reach: the logger singleton and the globals of Signal.h. *)
Record t : Type := mk {
  m_bRunning : bool;
  m_mapMessageHandler : gmap string (fnMessageHandler W);
  m_mapTimerHandler : gmap Z (fnTimerHandler W);
  m_mapSignalHandler : gmap Z (fnSignalHandler W);
  logger : Logger.t;
  signals : Signal.globals;
  world : W
}.

Definition with_message_handlers (m : gmap string (fnMessageHandler W)) (s : t) : t :=
  mk (m_bRunning s) m (m_mapTimerHandler s) (m_mapSignalHandler s)
     (logger s) (signals s) (world s).
Definition with_timer_handlers (m : gmap Z (fnTimerHandler W)) (s : t) : t :=
  mk (m_bRunning s) (m_mapMessageHandler s) m (m_mapSignalHandler s)
     (logger s) (signals s) (world s).
Definition with_signal_handlers (m : gmap Z (fnSignalHandler W)) (s : t) : t :=
  mk (m_bRunning s) (m_mapMessageHandler s) (m_mapTimerHandler s) m
     (logger s) (signals s) (world s).
Definition with_logger (lg : Logger.t) (s : t) : t :=
  mk (m_bRunning s) (m_mapMessageHandler s) (m_mapTimerHandler s)
     (m_mapSignalHandler s) lg (signals s) (world s).
Definition with_signals (g : Signal.globals) (s : t) : t :=
  mk (m_bRunning s) (m_mapMessageHandler s) (m_mapTimerHandler s)
     (m_mapSignalHandler s) (logger s) g (world s).
Definition with_world (w : W) (s : t) : t :=
  mk (m_bRunning s) (m_mapMessageHandler s) (m_mapTimerHandler s)
     (m_mapSignalHandler s) (logger s) (signals s) w.

(** The constructor, given the singletons and the application state. *)
Definition create (lg : Logger.t) (g : Signal.globals) (w : W) : t :=
  mk true ∅ ∅ ∅ lg g w.

Definition LCC_LOG (unLogKindIndex : Z) (fmt : string)
    (args : list Logger.arg) (s : t) : t :=
  with_logger (Logger.WriteFormatWithContext unLogKindIndex fmt args (logger s)) s.
Definition LCC_LOG_DEBUG := LCC_LOG Logger.k_unLogKindIndexLccDebug.
Definition LCC_LOG_INFO  := LCC_LOG Logger.k_unLogKindIndexLccInfo.
Definition LCC_LOG_ALERT := LCC_LOG Logger.k_unLogKindIndexLccAlert.
Definition LCC_LOG_ERROR := LCC_LOG Logger.k_unLogKindIndexLccError.

Definition RegisterMessageHandler (strEventName : string)
    (fnHandler : fnMessageHandler W) (s : t) : t :=
  let s1 := LCC_LOG_INFO "Register Message handler for EventName[%s]."
              [Logger.ArgStr strEventName] s in
  let s2 := with_message_handlers
              (emplace strEventName fnHandler (m_mapMessageHandler s1)) s1 in
  with_signals (Signal.Raise SIGUSR2 (signals s2)) s2.

Definition RegisterTimer (unTimerId : Z) (fnHandler : fnTimerHandler W) (s : t)
  : t :=
  let s1 := LCC_LOG_INFO "Register Timer handler for TimerId[%lu]."
              [Logger.ArgInt unTimerId] s in
  with_timer_handlers (emplace unTimerId fnHandler (m_mapTimerHandler s1)) s1.

Definition RegisterSignalHandler (snSignal : Z) (fnHandler : fnSignalHandler W)
    (s : t) : outcome t :=
  if snSignal =? SIGUSR2 then
    Throws
      (std_logic_error "Cannot register SIGUSR2 handler: it is reserved for internal use")
      s
  else
    let s1 := LCC_LOG_INFO "Register Signal handler for SignalNo[%lu]."
                [Logger.ArgInt snSignal] s in
    let s2 := with_signal_handlers
                (emplace snSignal fnHandler (m_mapSignalHandler s1)) s1 in
    Normal (with_signals (Signal.Raise SIGUSR2 (signals s2)) s2).

(** [handler(cEvent)]: the call of a registered [std::function]. *)
Definition call {E : Type} (handler : E → W → outcome W) (cEvent : E) (s : t)
  : outcome t :=
  match handler cEvent (world s) with
  | Normal w => Normal (with_world w s)
  | Throws e w => Throws e (with_world w s)
  | Undefined w => Undefined (with_world w s)
  end.

Definition vDispatchMessage (cEvent : MessageEvent) (s : t) : outcome t :=
  let strEventName := strEventName cEvent in
  let itr := m_mapMessageHandler s !! strEventName in
  let s1 := match itr with
            | None =>                    (* itr == m_mapMessageHandler.end() *)
                LCC_LOG_ALERT "No handler registered for EventName[%s]"
                  [Logger.ArgStr strEventName] s
            | Some _ => s
            end in
  let s2 := LCC_LOG_DEBUG "EventName[%s] Handler Begin."
              [Logger.ArgStr strEventName] s1 in
  let tmBegin := Now (world s2) in
  match itr with
  | None => Undefined s2                 (* itr->second of the end iterator *)
  | Some handler =>
      do s3 <- call handler cEvent s2;
      let tmEnd := Now (world s3) in
      let snDiffTime := tmEnd - tmBegin in
      Normal (LCC_LOG_DEBUG "EventName[%s] Handler End. ElapsedTime[%ld]ms"
                [Logger.ArgStr strEventName; Logger.ArgInt snDiffTime] s3)
  end.

Definition vDispatchTimer (cEvent : TimerEvent) (s : t) : outcome t :=
  let unTimerId := unTimerId cEvent in
  match m_mapTimerHandler s !! unTimerId with
  | None =>
      Normal (LCC_LOG_ALERT "No handler registered for TimerId[%lu]"
                [Logger.ArgInt unTimerId] s)
  | Some handler =>
      let s2 := LCC_LOG_DEBUG "TimerId[%lu] Handler Begin."
                  [Logger.ArgInt unTimerId] s in
      let tmBegin := Now (world s2) in
      do s3 <- call handler cEvent s2;
      let tmEnd := Now (world s3) in
      let snDiffTime := tmEnd - tmBegin in
      Normal (LCC_LOG_DEBUG "TimerId[%lu] Handler End.ElapsedTime[%ld]ms"
                [Logger.ArgInt unTimerId; Logger.ArgInt snDiffTime] s3)
  end.

(** The local [snSignal] is declared [TimerId] (unsigned); the look-up
    converts it back to the key type [SignalNo]. *)
Definition vDispatchSignal (cEvent : SignalEvent) (s : t) : outcome t :=
  let snSignal := to_uint64 (snSignal cEvent) in
  match m_mapSignalHandler s !! to_int64 snSignal with
  | None =>
      Normal (LCC_LOG_ALERT "No handler registered for TimerId[%lu]"
                [Logger.ArgInt snSignal] s)
  | Some handler =>
      let s2 := LCC_LOG_DEBUG "Signal[%ld] Handler Begin."
                  [Logger.ArgInt snSignal] s in
      let tmBegin := Now (world s2) in
      do s3 <- call handler cEvent s2;
      let tmEnd := Now (world s3) in
      let snDiffTime := tmEnd - tmBegin in
      Normal (LCC_LOG_DEBUG "Signal[%ld] Handler End.ElapsedTime[%ld]ms"
                [Logger.ArgInt snSignal; Logger.ArgInt snDiffTime] s3)
  end.

(** [std::visit] over the three alternatives of the variant. *)
Definition vOnEvent (cEvent : ProcessEvent) (s : t) : outcome t :=
  match cEvent with
  | EvMessage cEvent => vDispatchMessage cEvent s
  | EvTimer cEvent => vDispatchTimer cEvent s
  | EvSignal cEvent => vDispatchSignal cEvent s
  end.

Definition LogOnEventException (what : string) (s : t) : t :=
  LCC_LOG_ERROR "Exception in OnEvent(): %s" [Logger.ArgStr what] s.

Definition LogOnEventException0 (s : t) : t :=
  LCC_LOG_ERROR "Unknown Exception in OnEvent()" [] s.

(** The object as a whole: the [EventDriven<ProcessEvent>] base with the
    members above as its derived part. *)
Definition object : Type := EventDriven.t ProcessEvent t.

Definition with_derived (d : t) (o : object) : object :=
  EventDriven.mk (EventDriven.m_queEvent o) (EventDriven.cerr o) d.

Definition vOnEvent_override (cEvent : ProcessEvent) (o : object) : outcome object :=
  match vOnEvent cEvent (EventDriven.derived o) with
  | Normal d => Normal (with_derived d o)
  | Throws e d => Throws e (with_derived d o)
  | Undefined d => Undefined (with_derived d o)
  end.

(** [Run([this]() { return m_bRunning.load(); }, 100)] *)
Definition vRunProcess (sched : list (list (LockedQueue.other_thread ProcessEvent)))
    (msg : ProcessEvent) (o : object) : EventDriven.RunResult ProcessEvent t :=
  EventDriven.Run vOnEvent_override
    (λ w o, with_derived (LogOnEventException w (EventDriven.derived o)) o)
    (λ o, with_derived (LogOnEventException0 (EventDriven.derived o)) o)
    (λ o, m_bRunning (EventDriven.derived o)) 100 sched msg o.

Definition with_running (b : bool) (s : t) : t :=
  mk b (m_mapMessageHandler s) (m_mapTimerHandler s) (m_mapSignalHandler s)
     (logger s) (signals s) (world s).

(** The pure virtual [vOnStop] of the application. *)
Variable vOnStop : W → outcome W.

Definition Stop (o : object) : outcome object :=
  let s1 := with_running false (EventDriven.derived o) in
  let s2 := with_signals (Signal.Raise SIGUSR2 (signals s1)) s1 in
  do o3 <- match vOnStop (world s2) with
           | Normal w => Normal (with_derived (with_world w s2) o)
           | Throws e w => Throws e (with_derived (with_world w s2) o)
           | Undefined w => Undefined (with_derived (with_world w s2) o)
           end;
  Normal (EventDriven.Shutdown o3).       (* Shutdown() of the base class *)

Inductive SignalThread : Type :=
  | ThreadReturns (o : object)                 (* [m_bRunning] was false *)
  | ThreadThrows (e : exception) (o : object)  (* [Wait] threw *)
  | ThreadPolling (o : object)                 (* inside [Wait], schedule used up *)
  | ThreadAtHead (o : object)                  (* at the loop head, schedule used up *)
  | ThreadEnded (o : object).                  (* the process was ended inside [Wait] *)

(** [vSignalWaitThread], unrolled along a schedule that gives, for each
    call of [Wait], the events of its sleeps.  The keys of the
    [unordered_map] are listed here in the order of [map_to_list]; the
    order in which the code visits them is unspecified and makes no
    difference to [Wait]. *)
Fixpoint vSignalWaitThread (waits : list (list (list Signal.event))) (o : object)
  : SignalThread :=
  let s := EventDriven.derived o in
  if m_bRunning s then
    match waits with
    | [] => ThreadAtHead o
    | sleeps :: waits' =>
        let listSignal := (map_to_list (m_mapSignalHandler s)).*1 ++ [SIGUSR2] in
        match Signal.Wait catchable fatal listSignal sleeps (signals s) with
        | Signal.WaitThrows e g => ThreadThrows e (with_derived (with_signals g s) o)
        | Signal.WaitPolling g => ThreadPolling (with_derived (with_signals g s) o)
        | Signal.WaitEnded g => ThreadEnded (with_derived (with_signals g s) o)
        | Signal.WaitReturn snSignal g =>
            let o1 := with_derived (with_signals g s) o in
            if snSignal =? SIGUSR2 then vSignalWaitThread waits' o1
            else
              vSignalWaitThread waits'
                (EventDriven.Post (EvSignal (mk_SignalEvent snSignal)) o1).2
        end
    end
  else ThreadReturns o.

(** The object a run of the thread leaves. *)
Definition thread_object (r : SignalThread) : object :=
  match r with
  | ThreadReturns o | ThreadThrows _ o | ThreadPolling o | ThreadAtHead o
  | ThreadEnded o => o
  end.

(** [m_pcTimerManager] is a [unique_ptr], [None] when it is null; it is
    passed to the two functions that use it. *)
Definition vStartTimer (unTimerId unDelayMs : Z) (s : t)
    (m_pcTimerManager : option (TimerManager.t ProcessEvent))
  : t * option (TimerManager.t ProcessEvent) :=
  match m_pcTimerManager with
  | Some tm =>
      (LCC_LOG_DEBUG "TimerId[%lu] Start." [Logger.ArgInt unTimerId] s,
       Some (TimerManager.StartTimer unTimerId unDelayMs
               (EvTimer (mk_TimerEvent unTimerId)) tm))
  | None => (s, None)
  end.

Definition vStopTimer (unTimerId : Z) (s : t)
    (m_pcTimerManager : option (TimerManager.t ProcessEvent))
  : t * option (TimerManager.t ProcessEvent) :=
  match m_pcTimerManager with
  | Some tm =>
      (LCC_LOG_DEBUG "TimerId[%lu] Stop." [Logger.ArgInt unTimerId] s,
       Some (TimerManager.StopTimer unTimerId tm))
  | None => (s, None)
  end.

End ProcessBase.
Arguments t : clear implicits.
Arguments object : clear implicits.
Arguments SignalThread : clear implicits.
End ProcessBase.

(** ** IniFile.h *)

Module IniFile.

(** *** The operations of [std::string] that the reader uses.
    A position that may be [npos] is an [option nat], [None] for [npos]. *)

Fixpoint take (n : nat) (s : string) : string :=
  match n, s with
  | S n', String c s' => String c (take n' s')
  | _, _ => ""
  end.

Fixpoint drop (n : nat) (s : string) : string :=
  match n, s with
  | S n', String _ s' => drop n' s'
  | _, _ => s
  end.

(** [s.erase(pos, count)], for [pos] within the string. *)
Definition erase (pos : nat) (count : option nat) (s : string) : string :=
  match count with
  | None => take pos s
  | Some n => take pos s +:+ drop (pos + n) s
  end.

(** [s.substr(pos, count)], for [pos] within the string. *)
Definition substr (pos : nat) (count : option nat) (s : string) : string :=
  match count with
  | None => drop pos s
  | Some n => take n (drop pos s)
  end.

Fixpoint find_first_not_of (chars : list ascii) (s : string) : option nat :=
  match s with
  | "" => None
  | String c s' =>
      if bool_decide (c ∈ chars) then S <$> find_first_not_of chars s'
      else Some 0%nat
  end.

Fixpoint find_last_not_of (chars : list ascii) (s : string) : option nat :=
  match s with
  | "" => None
  | String c s' =>
      match find_last_not_of chars s' with
      | Some i => Some (S i)
      | None => if bool_decide (c ∈ chars) then None else Some 0%nat
      end
  end.

(** [s.find(ch)] *)
Fixpoint find (ch : ascii) (s : string) : option nat :=
  match s with
  | "" => None
  | String c s' => if bool_decide (c = ch) then Some 0%nat else S <$> find ch s'
  end.

Definition front (s : string) : option ascii :=
  match s with
  | "" => None
  | String c _ => Some c
  end.

Fixpoint back (s : string) : option ascii :=
  match s with
  | "" => None
  | String c "" => Some c
  | String _ s' => back s'
  end.

(** *** The class *)

(** [" \t\r\n"] *)
Definition whitespace : list ascii := [" "; "009"; "013"; "010"]%char.

Definition Trim (str : string) : string :=
  let str1 := erase 0 (find_first_not_of whitespace str) str in
  let pos := match find_last_not_of whitespace str1 with
             | Some i => S i
             | None => 0%nat             (* npos + 1 wraps around to 0 *)
             end in
  erase pos None str1.

(** [Data m_mapData], with the two locals of [LoadFromFile] that live
    across the lines. *)
Record loader : Type := mk {
  m_mapData : gmap string (gmap string string);
  currentSection : string
}.

(** [m_mapData[strSection][strKey] = strValue]: [operator[]] makes the
    missing section first. *)
Definition Set_ (strSection strKey strValue : string)
    (d : gmap string (gmap string string)) : gmap string (gmap string string) :=
  <[strSection := <[strKey := strValue]> (default ∅ (d !! strSection))]> d.

(** The body of the [while (std::getline(ifs, line))] loop. *)
Definition load_line (st : loader) (line : string) : loader :=
  let line := Trim line in
  if bool_decide (line = "")
     || bool_decide (front line = Some ";"%char)
     || bool_decide (front line = Some "#"%char)
  then st
  else if bool_decide (front line = Some "["%char)
          && bool_decide (back line = Some "]"%char)
  then
    {| m_mapData := m_mapData st;
       currentSection := Trim (substr 1 (Some (String.length line - 2)%nat) line) |}
  else
    match find "=" line with
    | None => st
    | Some eqPos =>
        let key := Trim (substr 0 (Some eqPos) line) in
        let value := Trim (substr (eqPos + 1) None line) in
        {| m_mapData := Set_ (currentSection st) key value (m_mapData st);
           currentSection := currentSection st |}
    end.

(** The pieces of the text between line feeds. *)
Fixpoint split_lf (s : string) : list string :=
  match s with
  | "" => [""]
  | String c s' =>
      if bool_decide (c = "010"%char) then "" :: split_lf s'
      else match split_lf s' with
           | l :: ls => String c l :: ls
           | [] => [String c ""]
           end
  end.

(** The lines that successive [std::getline] calls read: a last piece
    that is empty is the end of the file, not a line. *)
Definition getlines (s : string) : list string :=
  let pieces := split_lf s in
  if bool_decide (last pieces = Some "") then removelast pieces else pieces.

(** [LoadFromFile].  [ifs] is the text of the file, [None] when it cannot
    be opened. *)
Definition LoadFromFile (ifs : option string) (d : gmap string (gmap string string))
  : bool * gmap string (gmap string string) :=
  match ifs with
  | None => (false, d)
  | Some text =>
      (true, m_mapData (foldl load_line {| m_mapData := d; currentSection := "" |}
                              (getlines text)))
  end.

Definition Get (strSection strKey strDefaultValue : string)
    (d : gmap string (gmap string string)) : string :=
  match d !! strSection with
  | None => strDefaultValue
  | Some sec =>
      match sec !! strKey with
      | Some v => v
      | None => strDefaultValue
      end
  end.

(** [SaveToFile].  The two range-[for] loops visit the sections, and the
    keys of each section, in an order the [unordered_map] does not
    specify: [order] lists the store in the order of the visit.  The
    result is the text written, [None] when the file cannot be opened. *)
Definition save_key (kv : string * string) (rest : string) : string :=
  kv.1 +:+ "=" +:+ kv.2 +:+ String "010" rest.

Definition save_section (sec : string * list (string * string)) (rest : string)
  : string :=
  (if bool_decide (sec.1 = "") then "" else "[" +:+ sec.1 +:+ "]" +:+ String "010" "")
  +:+ foldr save_key (String "010" rest) sec.2.

Definition SaveToFile_text (order : list (string * list (string * string))) : string :=
  foldr save_section "" order.

Definition SaveToFile (ofs : bool) (order : list (string * list (string * string)))
  : bool * option string :=
  if ofs then (true, Some (SaveToFile_text order)) else (false, None).

(** [order] is a visit of the store [d]: every section once, every key of
    a section once. *)
Definition visits (d : gmap string (gmap string string))
    (order : list (string * list (string * string))) : Prop :=
  NoDup order.*1
  ∧ Forall (λ sec, NoDup sec.2.*1) order
  ∧ d = list_to_map ((λ sec, (sec.1, list_to_map sec.2)) <$> order).

End IniFile.

(** ** TimeStamp.h (the arithmetic on the time point) *)

Module TimeStamp.

(** [time_point_]: a count of microseconds since the epoch, an
    [int64_t]. *)
Record t : Type := mk { time_point_ : Z }.

Definition ToEpochMicro (ts : t) : Z := time_point_ ts.

Definition FromEpochMicro (us : Z) : t := {| time_point_ := us |}.

Definition in_int64 (z : Z) : bool := (- 2 ^ 63 <=? z) && (z <? 2 ^ 63).

(** [time_point_ - other.time_point_] is a subtraction of [int64_t]
    counts, undefined when it overflows ([None]); [duration_cast] to a
    coarser unit is a division that truncates toward zero. *)
Definition DiffSeconds (self other : t) : option Z :=
  let d := time_point_ self - time_point_ other in
  if in_int64 d then Some (d ÷ 1000000) else None.

Definition DiffMilliseconds (self other : t) : option Z :=
  let d := time_point_ self - time_point_ other in
  if in_int64 d then Some (d ÷ 1000) else None.

End TimeStamp.

(** ** Specification-side definitions and fixtures *)

(** Trimming as the specification words it ("leading/trailing whitespace
    trimmed"): the string without its leading whitespace, and the string
    without its trailing whitespace.  [IniFile.Trim] is compared with these. *)
Fixpoint strip_leading (s : string) : string :=
  match s with
  | "" => ""
  | String c s' => if bool_decide (c ∈ IniFile.whitespace) then strip_leading s' else s
  end.

Fixpoint strip_trailing (s : string) : string :=
  match s with
  | "" => ""
  | String c s' =>
      match strip_trailing s' with
      | "" => if bool_decide (c ∈ IniFile.whitespace) then "" else String c ""
      | r => String c r
      end
  end.

(** Conditions under which a store can be written and read back: names,
    keys and values without leading or trailing whitespace and without
    line feed; no section without name; keys without [=] that do not
    begin with [;], [#] or [[]. *)
Definition trimmed (s : string) : Prop :=
  strip_leading s = s ∧ strip_trailing s = s.

Definition one_line (s : string) : Prop := IniFile.find "010" s = None.

Definition saveable_key (k : string) : Prop :=
  trimmed k ∧ one_line k ∧ IniFile.find "=" k = None
  ∧ IniFile.front k ≠ Some ";"%char ∧ IniFile.front k ≠ Some "#"%char
  ∧ IniFile.front k ≠ Some "["%char.

Definition saveable_value (v : string) : Prop := trimmed v ∧ one_line v.

Definition saveable_keys (kvs : list (string * string)) : Prop :=
  Forall (λ kv, saveable_key kv.1 ∧ saveable_value kv.2) kvs.

Definition saveable (order : list (string * list (string * string))) : Prop :=
  Forall (λ sec, sec.1 ≠ "" ∧ trimmed sec.1 ∧ one_line sec.1 ∧ saveable_keys sec.2)
    order.


(** The text made of lines, each ended by a line feed; and the lines of
    the text [IniFile.SaveToFile_text] writes. *)
Definition unlines (ls : list string) : string :=
  foldr (λ l rest, l +:+ String "010" rest) "" ls.

Definition section_lines (sec : string * list (string * string)) : list string :=
  (if bool_decide (sec.1 = "") then [] else ["[" +:+ sec.1 +:+ "]"])
  ++ ((λ kv, kv.1 +:+ "=" +:+ kv.2) <$> sec.2) ++ [""].


(** What the lines of one saved section do to the reader: the keys go to
    the section named by the header, and to the current section when
    there is no header. *)
Definition read_section (st : IniFile.loader) (sec : string * list (string * string))
  : IniFile.loader :=
  let cur := if bool_decide (sec.1 = "") then IniFile.currentSection st else sec.1 in
  {| IniFile.m_mapData :=
       foldl (λ d kv, IniFile.Set_ cur kv.1 kv.2 d) (IniFile.m_mapData st) sec.2;
     IniFile.currentSection := cur |}.


(** A process whose application state is the list of the handlers that
    have run, on a system where [SIGUSR2] is 12, with a clock that stands
    still. *)
Definition says {E : Type} (name : string) : E → list string → outcome (list string) :=
  λ _ w, Normal (w ++ [name]).

Definition fresh_process : ProcessBase.t (list string) :=
  ProcessBase.create Logger.create Signal.initial [].

Definition ran (o : outcome (ProcessBase.t (list string))) : option (list string) :=
  match o with
  | Normal s => Some (ProcessBase.world s)
  | _ => None
  end.

(** A loop over numbers whose callback throws on 0: a [std::exception] the
    first time (the state counts the calls), something else afterwards. *)
Definition throws_on_zero (n : nat) (s : EventDriven.t nat nat)
  : outcome (EventDriven.t nat nat) :=
  let s' := EventDriven.mk (EventDriven.m_queEvent s) (EventDriven.cerr s)
              (S (EventDriven.derived s)) in
  match n, EventDriven.derived s with
  | O, O => Throws (std_exception "zero") s'
  | O, _ => Throws other_exception s'
  | _, _ => Normal s'
  end.

Definition loop_start : EventDriven.t nat nat :=
  EventDriven.mk (LockedQueue.mk [0; 0; 5]%nat false) [] 0%nat.

(** A small file, read from an empty store. *)
Definition sample_ini : string :=
  "; settings
[ Log ]
 Mask = 0x0F  
# retention

ExpireSec=3=4
[x
no value here
[]
a = b".








(** A Linux system with glibc.  [std::signal] succeeds for the numbers
    1 to 64 except SIGKILL (9), SIGSTOP (19) and the two numbers glibc
    keeps for its threads (32, 33).  Without a handler a signal ends the
    process, except SIGCHLD (17), SIGCONT (18), the stop signals (19 to
    22), SIGURG (23) and SIGWINCH (28). *)
Definition linux_catchable (sig : Z) : bool :=
  (1 <=? sig) && (sig <=? 64) && negb (existsb (Z.eqb sig) [9; 19; 32; 33]).

Definition linux_fatal (sig : Z) : bool :=
  (1 <=? sig) && (sig <=? 64)
  && negb (existsb (Z.eqb sig) [17; 18; 19; 20; 21; 22; 23; 28]).

(** A process with a handler for timer 7 and for the signals 15 and -3,
    and its object with an open and empty queue. *)
Definition handling_process : ProcessBase.t (list string) :=
  ProcessBase.with_timer_handlers {[ 7 := says "tick" ]}
    (ProcessBase.with_signal_handlers
       (<[ 15 := says "term" ]> {[ -3 := says "negative" ]}) fresh_process).

Definition handling_object : ProcessBase.object (list string) :=
  EventDriven.mk LockedQueue.create [] handling_process.

(** A store of two sections, in an order of visit. *)
Definition sample_order : list (string * list (string * string)) :=
  [("Log", [("Mask", "0x0F"); ("Dir", "../log")]); ("Net", [("Port", "80")])].

(** * Properties *)

(** ** LockedQueue *)

Section LockedQueue_facts.
Import LockedQueue.
Context {T_ : Type}.
Implicit Types (q : LockedQueue.t T_) (x pcData : T_)
  (others : list (other_thread T_)).

Lemma wait_pred_true q :
  wait_pred q = true ↔ m_que q ≠ [] ∨ m_bShutdown q = true.
Proof.
  unfold wait_pred. rewrite orb_true_iff, negb_true_iff, bool_decide_eq_false.
  reflexivity.
Qed.

Lemma cv_wait_ready others q :
  wait_pred q = true → cv_wait others q = (true, q).
Proof. intros Hp. destruct others; simpl; rewrite Hp; reflexivity. Qed.

(** The flag that a wait returns is the predicate in the queue it returns. *)
Lemma cv_wait_pred others q :
  wait_pred (cv_wait others q).2 = (cv_wait others q).1.
Proof.
  revert q. induction others as [|o others IH]; intros q; simpl.
  - destruct (wait_pred q) eqn:Hp; simpl; assumption.
  - destruct (wait_pred q) eqn:Hp; simpl; [assumption | apply IH].
Qed.

(** Without other threads a wait leaves the queue alone. *)
Lemma cv_wait_alone q : (cv_wait [] q).2 = q.
Proof. simpl. destruct (wait_pred q); reflexivity. Qed.

Lemma Deq_take_front bReady pcData x rest sd :
  bReady = true →
  Deq_take bReady pcData {| m_que := x :: rest; m_bShutdown := sd |}
  = DeqReturn true x {| m_que := rest; m_bShutdown := sd |}.
Proof.
  intros ->. unfold Deq_take. simpl.
  rewrite andb_false_r. reflexivity.
Qed.

Lemma Deq_nonempty pcData unTimeout others x rest sd :
  Deq pcData unTimeout others {| m_que := x :: rest; m_bShutdown := sd |}
  = DeqReturn true x {| m_que := rest; m_bShutdown := sd |}.
Proof.
  unfold Deq. rewrite cv_wait_ready.
  - destruct (unTimeout =? 0); apply Deq_take_front; reflexivity.
  - apply wait_pred_true. left. discriminate.
Qed.

Lemma Deq_drained pcData unTimeout others :
  Deq pcData unTimeout others {| m_que := []; m_bShutdown := true |}
  = DeqReturn false pcData {| m_que := []; m_bShutdown := true |}.
Proof.
  unfold Deq. rewrite cv_wait_ready by reflexivity.
  destruct (unTimeout =? 0); reflexivity.
Qed.

Lemma EnqAll_open (xs : list T_) (pre : list T_) :
  EnqAll xs {| m_que := pre; m_bShutdown := false |}
  = (map (λ _, true) xs, {| m_que := pre ++ xs; m_bShutdown := false |}).
Proof.
  revert pre. induction xs as [|x xs IH]; intros pre; simpl.
  - rewrite app_nil_r. reflexivity.
  - rewrite IH, <- app_assoc. reflexivity.
Qed.

Lemma DeqAll_front (xs rest : list T_) sd :
  ∀ (calls : list (Z * list (other_thread T_))) pcData,
    length calls = length xs →
    DeqAll calls pcData {| m_que := xs ++ rest; m_bShutdown := sd |}
    = (map (pair true) xs, {| m_que := rest; m_bShutdown := sd |}).
Proof.
  induction xs as [|x xs IH]; intros [|[unTimeout others] calls] pcData Hlen;
    simpl in Hlen; try discriminate; simpl.
  - reflexivity.
  - rewrite Deq_nonempty, IH by congruence. reflexivity.
Qed.

Lemma DeqAll_drained (calls : list (Z * list (other_thread T_))) pcData :
  DeqAll calls pcData {| m_que := []; m_bShutdown := true |}
  = (map (λ _, (false, pcData)) calls, {| m_que := []; m_bShutdown := true |}).
Proof.
  induction calls as [|[unTimeout others] calls IH]; simpl.
  - reflexivity.
  - rewrite Deq_drained, IH. reflexivity.
Qed.

(** C3.  Items enqueued into a fresh queue before [Shutdown] come out of
    the following [Deq] calls in the order of their [Enq], each with
    [true]; this holds for the calls made before [Shutdown] ([xs]) and
    for those made after it ([ys]), whatever their time-outs and whatever
    other threads attempt meanwhile.  Once the queue is shut down and
    empty, every further [Deq] returns [false] (and leaves its
    out-parameter and the queue alone). *)
Theorem Deq_yields_enqueued_in_order
    (xs ys : list T_) (calls1 calls2 calls3 : list (Z * list (other_thread T_)))
    (d1 d2 d3 : T_) :
  length calls1 = length xs →
  length calls2 = length ys →
  let '(bs, q1) := EnqAll (xs ++ ys) create in
  let '(rs1, q2) := DeqAll calls1 d1 q1 in
  let '(rs2, q3) := DeqAll calls2 d2 (Shutdown q2) in
  let '(rs3, q4) := DeqAll calls3 d3 q3 in
  bs = map (λ _, true) (xs ++ ys)
  ∧ rs1 = map (pair true) xs
  ∧ rs2 = map (pair true) ys
  ∧ rs3 = map (λ _, (false, d3)) calls3
  ∧ m_que q3 = [] ∧ q4 = q3.
Proof.
  intros H1 H2. unfold create.
  rewrite EnqAll_open. simpl.
  rewrite (DeqAll_front xs ys false calls1 d1 H1).
  unfold Shutdown. simpl.
  pose proof (DeqAll_front ys [] true calls2 d2 H2) as E.
  rewrite app_nil_r in E. rewrite E.
  rewrite DeqAll_drained. repeat split.
Qed.

Lemma run_call_keeps_shutdown q (c : call T_) :
  m_bShutdown q = true → m_bShutdown (run_call q c) = true.
Proof.
  intros Hs. destruct c as [x | pcData unTimeout others | ]; simpl.
  - unfold Enq. rewrite Hs. simpl. exact Hs.
  - unfold Deq. rewrite cv_wait_ready by (apply wait_pred_true; auto).
    assert (∀ b, match Deq_take b pcData q with
                 | DeqReturn _ _ q1 | DeqBlocked q1 | DeqUndefined q1 =>
                     m_bShutdown q1 = true
                 end) as Ht.
    { intros b. unfold Deq_take.
      destruct (negb b || _); simpl; [exact Hs|].
      destruct (m_que q); simpl; exact Hs. }
    destruct (unTimeout =? 0);
      [specialize (Ht true) | specialize (Ht true)];
      destruct (Deq_take true pcData q); exact Ht.
  - reflexivity.
Qed.

(** C4.  In every state of a queue on which [Shutdown] has been called,
    whatever calls were made since, [Enq] returns [false] and the queue
    it leaves is the queue it found. *)
Theorem Enq_after_Shutdown q0 (calls : list (call T_)) x :
  let q := foldl run_call (Shutdown q0) calls in
  Enq x q = (false, q).
Proof.
  simpl.
  assert (m_bShutdown (foldl run_call (Shutdown q0) calls) = true) as Hs.
  { generalize (Shutdown q0) (eq_refl : m_bShutdown (Shutdown q0) = true).
    induction calls as [|c calls IH]; intros q Hq; simpl; [exact Hq|].
    apply IH, run_call_keeps_shutdown, Hq. }
  unfold Enq. rewrite Hs. reflexivity.
Qed.

(** C10.  [Deq] acts on the queue [q1] in which its wait ends.  That is
    the queue [q] of the call itself, unless [q] is empty and not shut down
    and other threads run during the wait.  [Deq] returns [true] only with
    [q1] non-empty, the item being the head of [q1] and the queue left
    being its tail; when it returns [false] the queue and the
    out-parameter are as they were; when it never returns, the wait was
    untimed on an empty queue that is not shut down.  [front()] is never
    executed on an empty queue. *)
Theorem Deq_pops_front_or_leaves pcData unTimeout others q :
  let q1 := (cv_wait others q).2 in
  (cv_wait [] q).2 = q
  ∧ (if wait_pred q then q1 = q else m_que q = [] ∧ m_bShutdown q = false)
  ∧ match Deq pcData unTimeout others q with
    | DeqReturn true x q' =>
        m_que q1 = x :: m_que q' ∧ m_bShutdown q' = m_bShutdown q1
    | DeqReturn false x q' => q' = q1 ∧ x = pcData
    | DeqBlocked q' =>
        unTimeout = 0 ∧ q' = q1 ∧ m_que q1 = [] ∧ m_bShutdown q1 = false
    | DeqUndefined _ => False
    end.
Proof.
  simpl. split; [apply cv_wait_alone|]. split.
  { destruct (wait_pred q) eqn:Hq.
    - rewrite cv_wait_ready by exact Hq. reflexivity.
    - unfold wait_pred in Hq. apply orb_false_iff in Hq as [Hq Hs].
      apply negb_false_iff, bool_decide_eq_true in Hq. auto. }
  pose proof (cv_wait_pred others q) as Hp.
  unfold Deq. destruct (cv_wait others q) as [b q1]. simpl in *.
  assert (b = true →
          match Deq_take b pcData q1 with
          | DeqReturn true x q' =>
              m_que q1 = x :: m_que q' ∧ m_bShutdown q' = m_bShutdown q1
          | DeqReturn false x q' => q' = q1 ∧ x = pcData
          | DeqBlocked _ => False
          | DeqUndefined _ => False
          end) as Htake.
  { intros ->. unfold Deq_take. simpl.
    apply wait_pred_true in Hp.
    destruct (m_que q1) as [|x rest] eqn:Hq, (m_bShutdown q1) eqn:Hs; simpl;
      rewrite ?Hq; auto.
    destruct Hp; congruence. }
  destruct (unTimeout =? 0) eqn:Ht.
  - apply Z.eqb_eq in Ht. destruct b.
    + specialize (Htake eq_refl).
      destruct (Deq_take true pcData q1) as [[] ? ?| |]; auto. contradiction.
    + unfold wait_pred in Hp. apply orb_false_iff in Hp as [Hq Hs].
      apply negb_false_iff, bool_decide_eq_true in Hq. auto.
  - destruct b.
    + specialize (Htake eq_refl).
      destruct (Deq_take true pcData q1) as [[] ? ?| |]; auto; contradiction.
    + unfold Deq_take. simpl. auto.
Qed.

End LockedQueue_facts.

(** ** EventDriven *)

Section EventDriven_facts.
Import EventDriven.
Context {TEvent_ D : Type}.
Variable vOnEvent : TEvent_ → EventDriven.t TEvent_ D → outcome (EventDriven.t TEvent_ D).
Variable LogOnEventException : string → EventDriven.t TEvent_ D → EventDriven.t TEvent_ D.
Variable LogOnEventException0 : EventDriven.t TEvent_ D → EventDriven.t TEvent_ D.
Variable fnContinue : EventDriven.t TEvent_ D → bool.
Variable unTimeout : Z.

Local Abbreviation Run_ :=
  (Run vOnEvent LogOnEventException LogOnEventException0 fnContinue unTimeout).
Local Abbreviation Run_catch_ :=
  (Run_catch LogOnEventException LogOnEventException0).

Lemma try_catch_never_throws {S : Type} (body : outcome S) handler e s :
  try_catch body handler ≠ Throws e s.
Proof. destruct body; discriminate. Qed.

(** No exception leaves [Run]. *)
Lemma Run_never_throws sched :
  ∀ msg s e s', Run_ sched msg s ≠ RunThrows e s'.
Proof.
  induction sched as [|others sched IH]; intros msg s e s'; simpl.
  - destruct (fnContinue s); discriminate.
  - destruct (fnContinue s); [|discriminate].
    destruct (LockedQueue.Deq _ _ _ _) as [[] msg' q | q | q]; try discriminate.
    + destruct (try_catch _ _) as [s1 | e1 s1 | s1] eqn:Htc; try discriminate.
      * apply IH.
      * exfalso. exact (try_catch_never_throws _ _ _ _ Htc).
    + apply IH.
Qed.

(** C5.  An iteration of [Run] in which the callback throws [e], of
    whatever type: the exception is caught, the hook for its type is run
    on the state the callback left ([LogOnEventException] with
    [ex.what()] for a [std::exception], the overload without argument
    otherwise), and [Run] goes on from the loop head with the rest of the
    schedule, where [fnContinue] decides as ever.  No exception leaves
    [Run]. *)
Theorem Run_contains_callback_failure others sched msg s msg' q e s' :
  fnContinue s = true →
  LockedQueue.Deq msg unTimeout others (m_queEvent s)
    = LockedQueue.DeqReturn true msg' q →
  vOnEvent msg' (with_queue q s) = Throws e s' →
  Run_ (others :: sched) msg s
    = Run_ sched msg'
        (match what e with
         | Some w => LogOnEventException w s'
         | None => LogOnEventException0 s'
         end)
  ∧ ∀ e1 s1, Run_ (others :: sched) msg s ≠ RunThrows e1 s1.
Proof.
  intros Hc Hd Hv. split; [|intros; apply Run_never_throws].
  simpl. rewrite Hc, Hd, Hv. reflexivity.
Qed.

End EventDriven_facts.

(** ** Signal *)

Section Signal_facts.
Import Signal.
Variable catchable : Z → bool.
Variable fatal : Z → bool.

Lemma install_slot g sn :
  g_snSignal (install catchable g sn) = g_snSignal g
  ∧ g_bWaitInUse (install catchable g sn) = g_bWaitInUse g.
Proof. unfold install. destruct (catchable _); auto. Qed.

Lemma foldl_install_slot listSignal g :
  g_snSignal (foldl (install catchable) g listSignal) = g_snSignal g
  ∧ g_bWaitInUse (foldl (install catchable) g listSignal) = g_bWaitInUse g.
Proof.
  revert g. induction listSignal as [|sn l IH]; intros g; simpl; [auto|].
  destruct (IH (install catchable g sn)) as [-> ->]. apply install_slot.
Qed.

(** An event changes neither the flag nor the dispositions; the one that
    ends the process is the delivery of a fatal signal without handler. *)
Lemma run_event_keeps g ev g' :
  run_event fatal g ev = Lives g' →
  g_bWaitInUse g' = g_bWaitInUse g ∧ installed g' = installed g.
Proof.
  destruct ev as [n|n]; simpl.
  - destruct (decide (n ∈ installed g)); [intros [= <-]; auto|].
    destruct (fatal n); [discriminate|]. intros [= <-]; auto.
  - intros [= <-]. unfold Raise. destruct (n =? 0); auto.
Qed.

Lemma run_event_ends g ev g' :
  run_event fatal g ev = Ends g' →
  g' = g ∧ ∃ n, ev = Delivered n ∧ fatal n = true ∧ n ∉ installed g.
Proof.
  destruct ev as [n|n]; simpl; [|discriminate].
  destruct (decide (n ∈ installed g)); [discriminate|].
  destruct (fatal n) eqn:E; [|discriminate].
  intros [= <-]. eauto.
Qed.

Lemma sleep_for_keeps evs :
  ∀ g g', sleep_for fatal evs g = Lives g' →
          g_bWaitInUse g' = g_bWaitInUse g ∧ installed g' = installed g.
Proof.
  induction evs as [|ev evs IH]; intros g g'; simpl.
  - intros [= <-]. auto.
  - destruct (run_event fatal g ev) as [g1|g1] eqn:E; [|discriminate].
    intros H. destruct (IH _ _ H) as [-> ->]. exact (run_event_keeps _ _ _ E).
Qed.

Lemma sleep_for_ends evs :
  ∀ g g', sleep_for fatal evs g = Ends g' →
          g_bWaitInUse g' = g_bWaitInUse g ∧ installed g' = installed g
          ∧ ∃ n, Delivered n ∈ evs ∧ fatal n = true ∧ n ∉ installed g.
Proof.
  induction evs as [|ev evs IH]; intros g g'; simpl; [discriminate|].
  destruct (run_event fatal g ev) as [g1|g1] eqn:E.
  - intros H. destruct (IH _ _ H) as (-> & -> & n & Hin & Hf & Hn).
    destruct (run_event_keeps _ _ _ E) as [-> Hi]. rewrite Hi in Hn |- *.
    split; [reflexivity|]. split; [reflexivity|].
    exists n. split; [right; exact Hin | auto].
  - intros [= <-]. destruct (run_event_ends _ _ _ E) as (-> & n & -> & Hf & Hn).
    split; [reflexivity|]. split; [reflexivity|].
    exists n. split; [left | auto].
Qed.

Lemma sleep_for_app evs1 evs2 :
  ∀ g, sleep_for fatal (evs1 ++ evs2) g
       = match sleep_for fatal evs1 g with
         | Lives g' => sleep_for fatal evs2 g'
         | Ends g' => Ends g'
         end.
Proof.
  induction evs1 as [|ev evs1 IH]; intros g; simpl; [reflexivity|].
  destruct (run_event fatal g ev); [apply IH | reflexivity].
Qed.

(** The polling loop, by the sleeps it has slept when it returns: the
    value returned is the one the slot holds after their events, and
    every earlier poll found the slot empty. *)
Lemma Wait_loop_return sleeps :
  ∀ g, match Wait_loop fatal sleeps g with
       | WaitReturn sn g' =>
           (∃ slept rest gp,
              sleeps = slept ++ rest
              ∧ sleep_for fatal (concat slept) g = Lives gp
              ∧ (∀ k gk, (k < length slept)%nat →
                         sleep_for fatal (concat (take k slept)) g = Lives gk →
                         g_snSignal gk = 0)
              ∧ sn = g_snSignal gp)
           ∧ sn ≠ 0
           ∧ g' = {| g_snSignal := 0; g_bWaitInUse := false;
                     installed := installed g |}
       | WaitThrows _ _ => False
       | WaitPolling g' =>
           g_snSignal g' = 0 ∧ g_bWaitInUse g' = g_bWaitInUse g
           ∧ installed g' = installed g
       | WaitEnded g' =>
           g_bWaitInUse g' = g_bWaitInUse g ∧ installed g' = installed g
           ∧ ∃ n, Delivered n ∈ concat sleeps ∧ fatal n = true ∧ n ∉ installed g
       end.
Proof.
  assert (∀ sleeps g, g_snSignal g ≠ 0 →
            ∃ slept rest gp,
              sleeps = slept ++ rest
              ∧ sleep_for fatal (concat slept) g = Lives gp
              ∧ (∀ k gk, (k < length slept)%nat →
                         sleep_for fatal (concat (take k slept)) g = Lives gk →
                         g_snSignal gk = 0)
              ∧ g_snSignal g = g_snSignal gp) as Hnow.
  { intros sl g _. exists [], sl, g. split; [reflexivity|].
    split; [reflexivity|]. split; [|reflexivity].
    intros k gk Hk. simpl in Hk. lia. }
  induction sleeps as [|evs sleeps IH]; intros g; simpl.
  - destruct (g_snSignal g =? 0) eqn:E; simpl; [auto|].
    apply Z.eqb_neq in E. auto.
  - destruct (g_snSignal g =? 0) eqn:E; simpl;
      [|apply Z.eqb_neq in E; auto].
    apply Z.eqb_eq in E.
    assert ({| g_snSignal := 0; g_bWaitInUse := g_bWaitInUse g;
               installed := installed g |} = g) as ->.
    { destruct g; simpl in *; congruence. }
    destruct (sleep_for fatal evs g) as [g2|g2] eqn:Es.
    + destruct (sleep_for_keeps _ _ _ Es) as [Hf Hi].
      specialize (IH g2). destruct (Wait_loop fatal sleeps g2) as [sn g'|?|g'|g'].
      * destruct IH as ((slept & rest & gp & -> & Hgp & Hzero & ->) & Hsn & ->).
        split; [|split; [exact Hsn | rewrite Hi; reflexivity]].
        exists (evs :: slept), rest, gp. split; [reflexivity|].
        split; [simpl; rewrite sleep_for_app, Es; exact Hgp|].
        split; [|reflexivity].
        intros [|k] gk Hk; simpl.
        -- intros [= <-]. exact E.
        -- rewrite sleep_for_app, Es. apply Hzero. simpl in Hk. lia.
      * exact IH.
      * destruct IH as (? & ? & ?). split; [assumption|]. split; congruence.
      * destruct IH as (? & ? & n & Hin & Hfat & Hn).
        split; [congruence|]. split; [congruence|].
        exists n. split; [apply elem_of_app; right; exact Hin|].
        split; [exact Hfat | rewrite <- Hi; exact Hn].
    + destruct (sleep_for_ends _ _ _ Es) as (Hf & Hi & n & Hin & Hfat & Hn).
      split; [exact Hf|]. split; [exact Hi|].
      exists n. split; [apply elem_of_app; left; exact Hin | auto].
Qed.

(** C6.  [Wait] called with the in-use flag set throws a
    [std::logic_error] at once and changes nothing.  Called with the flag
    clear it never throws; when the slot is non-zero at the call it
    returns at the first poll.  Whenever it returns, the value is the one
    exchanged out of the slot at that poll: the value the slot holds
    after the events of the sleeps slept until then, every earlier poll
    having found the slot empty.  That value is non-zero, the slot holds 0
    afterwards and the in-use flag is clear again, so that a following
    [Wait] does not throw.  (A [Wait] that does not return is still
    polling, or the process has been ended by a signal that has no
    handler.) *)
Theorem Wait_single_waiter listSignal sleeps g :
  if g_bWaitInUse g then
    Wait catchable fatal listSignal sleeps g
    = WaitThrows
        (std_logic_error "LCC::Signal::Wait called while another Wait is in progress")
        g
  else
    let entered :=
      foldl (install catchable)
        {| g_snSignal := g_snSignal g; g_bWaitInUse := true;
           installed := installed g |} listSignal in
    (g_snSignal g ≠ 0 →
       ∃ g', Wait catchable fatal listSignal sleeps g = WaitReturn (g_snSignal g) g')
    ∧ match Wait catchable fatal listSignal sleeps g with
      | WaitReturn sn g' =>
          sn ≠ 0 ∧ g_snSignal g' = 0 ∧ g_bWaitInUse g' = false
          ∧ (∀ listSignal' sleeps' e g'',
               Wait catchable fatal listSignal' sleeps' g' ≠ WaitThrows e g'')
          ∧ ∃ slept rest gp,
              sleeps = slept ++ rest
              ∧ sleep_for fatal (concat slept) entered = Lives gp
              ∧ (∀ k gk, (k < length slept)%nat →
                         sleep_for fatal (concat (take k slept)) entered = Lives gk →
                         g_snSignal gk = 0)
              ∧ sn = g_snSignal gp
              ∧ g' = {| g_snSignal := 0; g_bWaitInUse := false;
                        installed := installed gp |}
      | WaitThrows _ _ => False
      | WaitPolling g' => g_snSignal g' = 0 ∧ g_bWaitInUse g' = true
      | WaitEnded g' =>
          ∃ n, Delivered n ∈ concat sleeps ∧ fatal n = true ∧ n ∉ installed g'
      end.
Proof.
  unfold Wait. destruct (g_bWaitInUse g) eqn:Hu; [reflexivity|].
  cbv zeta. set (g1 := foldl (install catchable) _ listSignal).
  assert (g_snSignal g1 = g_snSignal g ∧ g_bWaitInUse g1 = true) as [Hs Hf].
  { subst g1. destruct (foldl_install_slot listSignal
      {| g_snSignal := g_snSignal g; g_bWaitInUse := true;
         installed := installed g |}) as [-> ->]. auto. }
  split.
  - intros Hnz. destruct sleeps; simpl; rewrite Hs;
      apply Z.eqb_neq in Hnz; rewrite Hnz; simpl; eauto.
  - pose proof (Wait_loop_return sleeps g1) as Hr.
    destruct (Wait_loop fatal sleeps g1) as [sn g' | e g' | g' | g']; [|exact Hr| |].
    + destruct Hr as ((slept & rest & gp & Hsl & Hgp & Hzero & Hval) & Hsn & ->).
      split; [exact Hsn|]. split; [reflexivity|]. split; [reflexivity|].
      split.
      * intros listSignal' sleeps' e g''. cbn [g_bWaitInUse].
        pose proof (Wait_loop_return sleeps'
          (foldl (install catchable)
             {| g_snSignal := 0; g_bWaitInUse := true; installed := installed g1 |}
             listSignal')) as Hr'.
        cbn [g_snSignal installed].
        destruct (Wait_loop fatal sleeps' _);
          [discriminate|contradiction|discriminate|discriminate].
      * exists slept, rest, gp. split; [exact Hsl|]. split; [exact Hgp|].
        split; [exact Hzero|]. split; [exact Hval|].
        destruct (sleep_for_keeps _ _ _ Hgp) as [_ ->]. reflexivity.
    + destruct Hr as (? & -> & _). auto.
    + destruct Hr as (_ & -> & Hn). exact Hn.
Qed.

(** C7 (as amended).  [Raise(snSig)] with [snSig] other than 0 overwrites
    the pending slot, whatever it held, with [snSig] narrowed to [int],
    which is [snSig] itself when that is in the range of [int];
    [Raise(0)] returns at once and leaves the slot as it was.  Nothing
    else changes. *)
Theorem Raise_overwrites_unless_zero snSig g :
  g_snSignal (Raise snSig g)
    = (if snSig =? 0 then g_snSignal g else to_int snSig)
  ∧ (snSig ≠ 0 → - 2 ^ 31 ≤ snSig < 2 ^ 31 → g_snSignal (Raise snSig g) = snSig)
  ∧ g_bWaitInUse (Raise snSig g) = g_bWaitInUse g
  ∧ installed (Raise snSig g) = installed g.
Proof.
  unfold Raise. destruct (snSig =? 0) eqn:E; simpl.
  - apply Z.eqb_eq in E. repeat split; try reflexivity. intros; congruence.
  - repeat split; try reflexivity. intros _ Hr. unfold to_int.
    rewrite Z.mod_small by lia. lia.
Qed.

End Signal_facts.

(** ** ProcessBase *)

Section ProcessBase_facts.
Import ProcessBase.
Context {W : Type}.
Variable SIGUSR2 : Z.
Variable Now : W → Z.
Implicit Types (s : ProcessBase.t W).

Lemma emplace_lookup `{Countable K} {V : Type} (k : K) (v : V) (m : gmap K V) :
  emplace k v m !! k = Some (default v (m !! k)).
Proof.
  unfold emplace. destruct (m !! k) eqn:E; simpl; [exact E|].
  apply lookup_insert_eq.
Qed.

(** A second [emplace] under the same key changes nothing. *)
Lemma emplace_twice `{Countable K} {V : Type} (k : K) (v1 v2 : V) (m : gmap K V) :
  emplace k v2 (emplace k v1 m) = emplace k v1 m.
Proof.
  unfold emplace at 1. rewrite emplace_lookup. reflexivity.
Qed.

Lemma RegisterTimer_twice unTimerId (h1 h2 : fnTimerHandler W) s :
  m_mapTimerHandler (RegisterTimer unTimerId h2 (RegisterTimer unTimerId h1 s))
  = m_mapTimerHandler (RegisterTimer unTimerId h1 s).
Proof. unfold RegisterTimer. simpl. apply emplace_twice. Qed.

Lemma RegisterMessageHandler_twice strEventName (h1 h2 : fnMessageHandler W) s :
  m_mapMessageHandler
    (RegisterMessageHandler SIGUSR2 strEventName h2
       (RegisterMessageHandler SIGUSR2 strEventName h1 s))
  = m_mapMessageHandler (RegisterMessageHandler SIGUSR2 strEventName h1 s).
Proof. unfold RegisterMessageHandler. simpl. apply emplace_twice. Qed.

(** A message without handler: after the alert the code goes on to the
    [Handler Begin] line and to [itr->second] of the end iterator. *)
Lemma vDispatchMessage_missing (cEvent : MessageEvent) s :
  m_mapMessageHandler s !! strEventName cEvent = None →
  vDispatchMessage Now cEvent s
  = Undefined
      (LCC_LOG_DEBUG "EventName[%s] Handler Begin."
         [Logger.ArgStr (strEventName cEvent)]
         (LCC_LOG_ALERT "No handler registered for EventName[%s]"
            [Logger.ArgStr (strEventName cEvent)] s)).
Proof. intros E. unfold vDispatchMessage. cbv zeta. rewrite E. reflexivity. Qed.

(** A timer event without handler: the alert, then [return]. *)
Lemma vDispatchTimer_missing (cEvent : TimerEvent) s :
  m_mapTimerHandler s !! unTimerId cEvent = None →
  vDispatchTimer Now cEvent s
  = Normal (LCC_LOG_ALERT "No handler registered for TimerId[%lu]"
              [Logger.ArgInt (unTimerId cEvent)] s).
Proof. intros E. unfold vDispatchTimer. cbv zeta. rewrite E. reflexivity. Qed.

(** C8.  [RegisterSignalHandler] called with [SIGUSR2] throws a
    [std::logic_error]; the object it leaves, and with it the map of
    signal handlers, is the one it found.  It does not return. *)
Theorem RegisterSignalHandler_SIGUSR2_throws (fnHandler : fnSignalHandler W) s :
  RegisterSignalHandler SIGUSR2 SIGUSR2 fnHandler s
  = Throws
      (std_logic_error "Cannot register SIGUSR2 handler: it is reserved for internal use")
      s.
Proof. unfold RegisterSignalHandler. rewrite Z.eqb_refl. reflexivity. Qed.

End ProcessBase_facts.

(** ** IniFile *)

Section IniFile_facts.
Import IniFile.
Implicit Types (s k v line : string) (c : ascii).

Lemma app_cons c s1 s2 : String c s1 +:+ s2 = String c (s1 +:+ s2).
Proof. reflexivity. Qed.

Lemma app_empty_r s : s +:+ "" = s.
Proof. induction s as [|c s IH]; [reflexivity|]. rewrite app_cons, IH. reflexivity. Qed.

Lemma app_assoc_str s1 s2 s3 : (s1 +:+ s2) +:+ s3 = s1 +:+ s2 +:+ s3.
Proof. induction s1 as [|c s1 IH]; [reflexivity|]. rewrite !app_cons, IH. reflexivity. Qed.

Lemma take_0 s : take 0 s = "".
Proof. destruct s; reflexivity. Qed.

Lemma take_app_length s1 s2 : take (String.length s1) (s1 +:+ s2) = s1.
Proof.
  induction s1 as [|c s1 IH]; [apply take_0|].
  rewrite app_cons. simpl. rewrite IH. reflexivity.
Qed.

Lemma drop_app_length s1 s2 : drop (String.length s1) (s1 +:+ s2) = s2.
Proof. induction s1 as [|c s1 IH]; [destruct s2; reflexivity|exact IH]. Qed.

(** [str.erase(0, str.find_first_not_of(whitespace))] *)
Lemma erase_leading s :
  erase 0 (find_first_not_of whitespace s) s = strip_leading s.
Proof.
  induction s as [|c s IH]; [reflexivity|]. simpl.
  destruct (bool_decide (c ∈ whitespace)); [|reflexivity].
  rewrite <- IH. destruct (find_first_not_of whitespace s); reflexivity.
Qed.

Lemma strip_leading_cons c s :
  strip_leading (String c s)
  = if bool_decide (c ∈ whitespace) then strip_leading s else String c s.
Proof. reflexivity. Qed.

Lemma strip_trailing_cons c s :
  strip_trailing (String c s)
  = if bool_decide (strip_trailing s = "") && bool_decide (c ∈ whitespace)
    then "" else String c (strip_trailing s).
Proof.
  simpl. destruct (strip_trailing s); simpl; [|reflexivity].
  destruct (bool_decide (c ∈ whitespace)); reflexivity.
Qed.

(** [str.erase(str.find_last_not_of(whitespace) + 1)] *)
Lemma erase_trailing s :
  erase (match find_last_not_of whitespace s with
         | Some i => S i
         | None => 0%nat
         end) None s = strip_trailing s
  ∧ (find_last_not_of whitespace s = None ↔ strip_trailing s = "").
Proof.
  unfold erase. induction s as [|c s [IH1 IH2]]; [done|].
  rewrite strip_trailing_cons. simpl find_last_not_of.
  destruct (find_last_not_of whitespace s) as [i|] eqn:E.
  - assert (strip_trailing s ≠ "") as Hne by (rewrite <- IH2; discriminate).
    rewrite bool_decide_eq_false_2 by exact Hne. rewrite andb_false_l.
    change (take (S (S i)) (String c s)) with (String c (take (S i) s)).
    rewrite IH1. done.
  - rewrite take_0 in IH1. rewrite <- IH1.
    rewrite (bool_decide_eq_true_2 ("" = "")) by reflexivity.
    rewrite andb_true_l.
    destruct (bool_decide (c ∈ whitespace)); [done|].
    simpl. destruct s; done.
Qed.

Lemma Trim_strips s : Trim s = strip_trailing (strip_leading s).
Proof. unfold Trim. rewrite erase_leading. apply erase_trailing. Qed.

Lemma app_nonempty s1 c s2 : s1 +:+ String c s2 ≠ "".
Proof. destruct s1; discriminate. Qed.

Lemma length_app s1 s2 :
  String.length (s1 +:+ s2) = (String.length s1 + String.length s2)%nat.
Proof.
  induction s1 as [|c s1 IH]; [reflexivity|].
  rewrite app_cons. simpl. rewrite IH. reflexivity.
Qed.

Lemma back_app_last s c : back (s +:+ String c "") = Some c.
Proof.
  induction s as [|a s IH]; [reflexivity|].
  rewrite app_cons. simpl. rewrite IH.
  destruct (s +:+ String c "") eqn:E; [|reflexivity].
  exfalso. exact (app_nonempty _ _ _ E).
Qed.

Lemma strip_leading_app k c v :
  c ∉ whitespace →
  strip_leading (k +:+ String c v) = strip_leading k +:+ String c v.
Proof.
  intros Hc. induction k as [|a k IH].
  - simpl. rewrite bool_decide_eq_false_2 by exact Hc. reflexivity.
  - rewrite app_cons. simpl.
    destruct (bool_decide (a ∈ whitespace)); [exact IH | reflexivity].
Qed.

Lemma strip_trailing_app k c v :
  c ∉ whitespace →
  strip_trailing (k +:+ String c v) = k +:+ String c (strip_trailing v).
Proof.
  intros Hc. induction k as [|a k IH].
  - change ("" +:+ String c v) with (String c v).
    rewrite strip_trailing_cons.
    rewrite (bool_decide_eq_false_2 (c ∈ whitespace)) by exact Hc.
    rewrite andb_false_r. reflexivity.
  - rewrite app_cons, strip_trailing_cons, IH.
    rewrite bool_decide_eq_false_2 by apply app_nonempty.
    reflexivity.
Qed.

Lemma strip_leading_idem s : strip_leading (strip_leading s) = strip_leading s.
Proof.
  induction s as [|c s IH]; [reflexivity|]. simpl.
  destruct (bool_decide (c ∈ whitespace)) eqn:E; [exact IH|].
  simpl. rewrite E. reflexivity.
Qed.

Lemma strip_trailing_idem s : strip_trailing (strip_trailing s) = strip_trailing s.
Proof.
  induction s as [|c s IH]; [reflexivity|].
  rewrite strip_trailing_cons.
  destruct (bool_decide (strip_trailing s = "") && bool_decide (c ∈ whitespace))
    eqn:E; [reflexivity|].
  rewrite strip_trailing_cons, IH, E. reflexivity.
Qed.

Lemma strip_leading_trailing s :
  strip_leading (strip_trailing s) = strip_trailing (strip_leading s).
Proof.
  induction s as [|c s IH]; [reflexivity|].
  rewrite strip_trailing_cons, (strip_leading_cons c s).
  destruct (bool_decide (c ∈ whitespace)) eqn:Ec.
  - rewrite andb_true_r. rewrite <- IH.
    destruct (bool_decide (strip_trailing s = "")) eqn:E.
    + apply bool_decide_eq_true in E. rewrite E. reflexivity.
    + rewrite strip_leading_cons, Ec. reflexivity.
  - rewrite andb_false_r, strip_leading_cons, Ec.
    rewrite strip_trailing_cons, Ec, andb_false_r. reflexivity.
Qed.

Lemma Trim_strip_leading s : Trim (strip_leading s) = Trim s.
Proof. rewrite !Trim_strips, strip_leading_idem. reflexivity. Qed.

Lemma Trim_strip_trailing s : Trim (strip_trailing s) = Trim s.
Proof.
  rewrite !Trim_strips, strip_leading_trailing, strip_trailing_idem.
  reflexivity.
Qed.

Lemma Trim_idem s : Trim (Trim s) = Trim s.
Proof. rewrite (Trim_strips s) at 1. rewrite Trim_strip_trailing. apply Trim_strip_leading. Qed.

(** A line that begins with a character other than whitespace keeps it. *)
Lemma Trim_front c s : c ∉ whitespace → front (Trim (String c s)) = Some c.
Proof.
  intros Hc. rewrite Trim_strips. simpl strip_leading.
  rewrite bool_decide_eq_false_2 by exact Hc.
  rewrite strip_trailing_cons, (bool_decide_eq_false_2 (c ∈ whitespace)) by exact Hc.
  rewrite andb_false_r. reflexivity.
Qed.

Lemma Trim_key_value k v :
  Trim (k +:+ "=" +:+ v) = strip_leading k +:+ "=" +:+ strip_trailing v.
Proof.
  assert ("="%char ∉ whitespace) as Hc
    by (apply (bool_decide_eq_false_1 _); reflexivity).
  rewrite Trim_strips.
  change ("=" +:+ v) with (String "=" v).
  rewrite strip_leading_app, strip_trailing_app by exact Hc. reflexivity.
Qed.

Lemma find_app ch s1 s2 :
  find ch s1 = None → find ch (s1 +:+ String ch s2) = Some (String.length s1).
Proof.
  induction s1 as [|a s1 IH]; intros Hf.
  - simpl. rewrite bool_decide_eq_true_2; reflexivity.
  - rewrite app_cons. simpl in *.
    destruct (bool_decide (a = ch)); [discriminate|].
    destruct (find ch s1); [discriminate|]. rewrite IH; reflexivity.
Qed.

Lemma find_strip_leading ch s :
  find ch s = None → find ch (strip_leading s) = None.
Proof.
  induction s as [|a s IH]; [reflexivity|]. intros Hf. simpl.
  destruct (bool_decide (a ∈ whitespace)); [|exact Hf].
  apply IH. simpl in Hf.
  destruct (bool_decide (a = ch)); [discriminate|].
  destruct (find ch s); [discriminate|reflexivity].
Qed.

Lemma load_line_blank st line : Trim line = "" → load_line st line = st.
Proof. intros E. unfold load_line. rewrite E. reflexivity. Qed.

Lemma load_line_comment st line :
  front (Trim line) = Some ";"%char ∨ front (Trim line) = Some "#"%char →
  load_line st line = st.
Proof.
  intros [E|E]; unfold load_line; rewrite E.
  - rewrite orb_true_r. reflexivity.
  - rewrite orb_true_r. reflexivity.
Qed.

Lemma load_line_section st line body :
  Trim line = "[" +:+ body +:+ "]" →
  load_line st line
  = {| m_mapData := m_mapData st; currentSection := Trim body |}.
Proof.
  intros E. unfold load_line. rewrite E.
  assert (back ("[" +:+ body +:+ "]") = Some "]"%char) as ->.
  { rewrite <- app_assoc_str. apply back_app_last. }
  change ("[" +:+ body +:+ "]") with (String "[" (body +:+ "]")).
  simpl bool_decide. cbn [orb andb].
  unfold substr. simpl String.length. rewrite length_app. simpl.
  replace (String.length body + 1 - 1)%nat with (String.length body) by lia.
  rewrite take_app_length. reflexivity.
Qed.

Lemma load_line_key_value st k v :
  find "=" k = None →
  front (Trim (k +:+ "=" +:+ v)) ≠ Some ";"%char →
  front (Trim (k +:+ "=" +:+ v)) ≠ Some "#"%char →
  ¬ (front (Trim (k +:+ "=" +:+ v)) = Some "["%char
     ∧ back (Trim (k +:+ "=" +:+ v)) = Some "]"%char) →
  load_line st (k +:+ "=" +:+ v)
  = {| m_mapData := Set_ (currentSection st) (Trim k) (Trim v) (m_mapData st);
       currentSection := currentSection st |}.
Proof.
  intros Hk H1 H2 H3. unfold load_line.
  rewrite bool_decide_eq_false_2
    by (rewrite Trim_key_value; apply app_nonempty).
  rewrite (bool_decide_eq_false_2 _ H1), (bool_decide_eq_false_2 _ H2).
  cbn [orb].
  assert (bool_decide (front (Trim (k +:+ "=" +:+ v)) = Some "["%char)
          && bool_decide (back (Trim (k +:+ "=" +:+ v)) = Some "]"%char) = false)
    as ->.
  { apply andb_false_iff.
    destruct (decide (front (Trim (k +:+ "=" +:+ v)) = Some "["%char)) as [Hf|Hf].
    - right. apply bool_decide_eq_false. intros Hb. apply H3. auto.
    - left. apply bool_decide_eq_false. exact Hf. }
  rewrite Trim_key_value.
  change ("=" +:+ strip_trailing v) with (String "=" (strip_trailing v)).
  rewrite find_app by (apply find_strip_leading, Hk).
  unfold substr. simpl drop at 1.
  rewrite take_app_length, Trim_strip_leading.
  replace (String.length (strip_leading k) + 1)%nat
    with (String.length (strip_leading k +:+ "=")) by (rewrite length_app; reflexivity).
  change (String "=" (strip_trailing v)) with ("=" +:+ strip_trailing v).
  rewrite <- app_assoc_str, drop_app_length, Trim_strip_trailing.
  reflexivity.
Qed.

Lemma Get_lookup strSection strKey strDefaultValue
    (d : gmap string (gmap string string)) :
  Get strSection strKey strDefaultValue d
  = default strDefaultValue (d !! strSection ≫= λ sec, sec !! strKey).
Proof.
  unfold Get. destruct (d !! strSection) as [sec|]; simpl; [|reflexivity].
  destruct (sec !! strKey); reflexivity.
Qed.

Lemma Get_Set strSection strKey strValue strDefaultValue
    (d : gmap string (gmap string string)) :
  Get strSection strKey strDefaultValue (Set_ strSection strKey strValue d)
  = strValue.
Proof. unfold Get, Set_. rewrite !lookup_insert_eq. reflexivity. Qed.

(** One line of the input, read in a state [st] of the reader;
    [Trim line] is the line without its leading and trailing whitespace.
    A blank line, and a line that begins (itself, or after leading
    whitespace) with [;] or [#], leaves the state as it is.  A line of the
    form [[section]] makes the trimmed text between the brackets the
    current section and leaves the data as they are.  Any other line
    [k=v], where [k] has no [=], stores the trimmed [v] under the current
    section and the trimmed [k], where [Get] finds it.  [Get] returns the
    stored value when the section has the key, and the default when the
    section or the key is missing. *)
Theorem load_line_and_Get (st : loader) (line : string) :
  Trim line = strip_trailing (strip_leading line)
  ∧ (Trim line = "" → load_line st line = st)
  ∧ (front line = Some ";"%char ∨ front line = Some "#"%char
     ∨ front (Trim line) = Some ";"%char ∨ front (Trim line) = Some "#"%char →
     load_line st line = st)
  ∧ (∀ body, Trim line = "[" +:+ body +:+ "]" →
       load_line st line
       = {| m_mapData := m_mapData st; currentSection := Trim body |})
  ∧ (∀ k v, line = k +:+ "=" +:+ v →
       find "=" k = None →
       front (Trim line) ≠ Some ";"%char →
       front (Trim line) ≠ Some "#"%char →
       ¬ (front (Trim line) = Some "["%char ∧ back (Trim line) = Some "]"%char) →
       load_line st line
       = {| m_mapData := Set_ (currentSection st) (Trim k) (Trim v) (m_mapData st);
            currentSection := currentSection st |}
       ∧ ∀ strDefaultValue,
           Get (currentSection st) (Trim k) strDefaultValue
             (m_mapData (load_line st line)) = Trim v)
  ∧ (∀ (d : gmap string (gmap string string)) strSection strKey strDefaultValue,
       (∀ sec strValue,
          d !! strSection = Some sec → sec !! strKey = Some strValue →
          Get strSection strKey strDefaultValue d = strValue)
       ∧ (d !! strSection = None →
          Get strSection strKey strDefaultValue d = strDefaultValue)
       ∧ (∀ sec,
          d !! strSection = Some sec → sec !! strKey = None →
          Get strSection strKey strDefaultValue d = strDefaultValue)).
Proof.
  split; [apply Trim_strips|].
  split; [apply load_line_blank|].
  split.
  { intros H. apply load_line_comment.
    assert (∀ c, c ∉ whitespace → front line = Some c → front (Trim line) = Some c)
      as Hraw.
    { intros c Hc Hf. destruct line as [|a l]; [discriminate|].
      injection Hf as ->. apply Trim_front, Hc. }
    destruct H as [H|[H|[H|H]]]; [left|right|left|right]; try exact H;
      (apply Hraw; [apply (bool_decide_eq_false_1 _); reflexivity | exact H]). }
  split; [intros body; apply load_line_section|].
  split.
  { intros k v -> Hk H1 H2 H3.
    rewrite (load_line_key_value st k v Hk H1 H2 H3).
    split; [reflexivity|]. intros dflt. apply Get_Set. }
  intros d strSection strKey dflt. rewrite Get_lookup.
  split; [|split].
  - intros sec v -> E. simpl. rewrite E. reflexivity.
  - intros ->. reflexivity.
  - intros sec -> E. simpl. rewrite E. reflexivity.
Qed.
End IniFile_facts.

(** * Further properties *)

(** ** LockedQueue: waiting, time-out and conservation *)

Section LockedQueue_more.
Import LockedQueue.
Context {T_ : Type}.
Implicit Types (q : LockedQueue.t T_) (x pcData : T_)
  (others : list (other_thread T_)).

Lemma wait_pred_false q :
  wait_pred q = false ↔ m_que q = [] ∧ m_bShutdown q = false.
Proof.
  unfold wait_pred. rewrite orb_false_iff, negb_false_iff, bool_decide_eq_true.
  reflexivity.
Qed.

(** A wait ends with the first thing another thread does to the queue. *)
Lemma cv_wait_first (o : other_thread T_) others q :
  wait_pred q = false → cv_wait (o :: others) q = (true, run_other o q).
Proof.
  intros Hp. simpl. rewrite Hp.
  apply wait_pred_false in Hp as [Hq Hs].
  apply cv_wait_ready. apply wait_pred_true.
  destruct o as [x|]; simpl; [left | right; reflexivity].
  unfold Enq. rewrite Hs. simpl. rewrite Hq. discriminate.
Qed.

(** [Deq] on a queue that is empty and not shut down, by what the other
    threads do first. *)
Lemma Deq_waiting pcData unTimeout others q :
  m_que q = [] → m_bShutdown q = false →
  Deq pcData unTimeout others q
  = match others with
    | [] => if unTimeout =? 0 then DeqBlocked q else DeqReturn false pcData q
    | OtherEnq x :: _ => DeqReturn true x q
    | OtherShutdown :: _ => DeqReturn false pcData (Shutdown q)
    end.
Proof.
  intros Hq Hs. unfold Deq. destruct others as [|[x|] others].
  - simpl. rewrite (proj2 (wait_pred_false q)) by auto.
    destruct (unTimeout =? 0); reflexivity.
  - rewrite cv_wait_first by (apply wait_pred_false; auto).
    simpl. unfold Enq. rewrite Hs, Hq. simpl.
    destruct q as [que sd]. simpl in *. subst.
    destruct (unTimeout =? 0); reflexivity.
  - rewrite cv_wait_first by (apply wait_pred_false; auto).
    simpl. unfold Deq_take. simpl. rewrite Hq. simpl.
    destruct (unTimeout =? 0); reflexivity.
Qed.

(** [Deq] on a queue that is not empty or is shut down does not wait. *)
Lemma Deq_ready pcData unTimeout others q :
  wait_pred q = true →
  Deq pcData unTimeout others q = Deq_take true pcData q.
Proof.
  intros Hp. unfold Deq. rewrite cv_wait_ready by exact Hp.
  destruct (unTimeout =? 0); reflexivity.
Qed.

(** X1.  A [Deq] that waits on an empty queue which is not shut down
    returns, with [true], the item of the next [Enq] of another thread,
    whatever its time-out; the queue is empty again. *)
Theorem Deq_takes_item_of_waking_Enq pcData unTimeout x others q :
  m_que q = [] → m_bShutdown q = false →
  Deq pcData unTimeout (OtherEnq x :: others) q = DeqReturn true x q.
Proof. intros Hq Hs. rewrite Deq_waiting by assumption. reflexivity. Qed.

(** X2.  A [Deq] that waits on an empty queue is released by the
    [Shutdown] of another thread and returns [false], also when its wait
    is untimed; its out-parameter is untouched. *)
Theorem Deq_released_by_Shutdown pcData unTimeout others q :
  m_que q = [] → m_bShutdown q = false →
  Deq pcData unTimeout (OtherShutdown :: others) q
  = DeqReturn false pcData (Shutdown q).
Proof. intros Hq Hs. rewrite Deq_waiting by assumption. reflexivity. Qed.

(** X3.  On an empty queue that is not shut down, and with no other
    thread acting before the time-out, a timed [Deq] returns [false] and
    leaves queue and out-parameter as they are; an untimed one (time-out
    0) never returns. *)
Theorem Deq_times_out pcData unTimeout q :
  m_que q = [] → m_bShutdown q = false →
  Deq pcData unTimeout [] q
  = if unTimeout =? 0 then DeqBlocked q else DeqReturn false pcData q.
Proof. intros Hq Hs. rewrite Deq_waiting by assumption. reflexivity. Qed.

Lemma run_call_conserves q (c : call T_) :
  m_que q ++ accepted_by q c = delivered_by q c ++ m_que (run_call q c).
Proof.
  destruct c as [x | pcData unTimeout others | ]; simpl.
  - unfold Enq. destruct (m_bShutdown q); simpl; [apply app_nil_r | reflexivity].
  - destruct (wait_pred q) eqn:Hp.
    + rewrite Deq_ready by exact Hp. rewrite app_nil_r.
      unfold Deq_take. simpl.
      destruct (m_que q) as [|y rest] eqn:Hq, (m_bShutdown q) eqn:Hs; simpl;
        rewrite ?Hq; reflexivity.
    + apply wait_pred_false in Hp as [Hq Hs].
      rewrite Deq_waiting by assumption. rewrite Hq.
      destruct others as [|[x|] others]; simpl.
      * destruct (unTimeout =? 0); simpl; symmetry; exact Hq.
      * rewrite Hq. reflexivity.
      * symmetry. exact Hq.
  - rewrite app_nil_r. reflexivity.
Qed.

(** X4.  Nothing is lost, duplicated or reordered: after any sequence of
    [Enq], [Deq] and [Shutdown] calls, under any time-outs and any
    interference of other threads during the waits, the items the queue
    held at first followed by the items accepted since are the items
    delivered since followed by the items the queue holds now. *)
Theorem history_conserves_items (calls : list (call T_)) q :
  let '(accepted, delivered, q') := history q calls in
  m_que q ++ accepted = delivered ++ m_que q'.
Proof.
  revert q. induction calls as [|c calls IH]; intros q; simpl.
  - rewrite app_nil_r. reflexivity.
  - specialize (IH (run_call q c)).
    destruct (history (run_call q c) calls) as [[acc del] q'].
    rewrite app_assoc, run_call_conserves, <- !app_assoc, IH. reflexivity.
Qed.

End LockedQueue_more.

(** ** EventDriven: every queued event is handled once, in order *)

Section EventDriven_more.
Import EventDriven.
Context {TEvent_ D : Type}.
Variable vOnEvent : TEvent_ → EventDriven.t TEvent_ D → outcome (EventDriven.t TEvent_ D).
Variable LogOnEventException : string → EventDriven.t TEvent_ D → EventDriven.t TEvent_ D.
Variable LogOnEventException0 : EventDriven.t TEvent_ D → EventDriven.t TEvent_ D.
Variable fnContinue : EventDriven.t TEvent_ D → bool.
Variable unTimeout : Z.

(** [Post] on a queue that is not shut down. *)
Lemma Post_open (msg : TEvent_) (s : EventDriven.t TEvent_ D) :
  LockedQueue.m_bShutdown (m_queEvent s) = false →
  EventDriven.Post msg s
  = (true,
     with_queue
       {| LockedQueue.m_que := LockedQueue.m_que (m_queEvent s) ++ [msg];
          LockedQueue.m_bShutdown := false |} s).
Proof.
  intros Hs. unfold EventDriven.Post, LockedQueue.Enq. rewrite Hs. reflexivity.
Qed.

Lemma last_nonempty {A : Type} (l : list A) (d d' : A) :
  l ≠ [] → List.last l d = List.last l d'.
Proof.
  induction l as [|a [|b l] IH]; intros Hl; [contradiction|reflexivity|].
  apply IH. discriminate.
Qed.

Lemma dispatched_queue s msg :
  keeps_queue vOnEvent LogOnEventException LogOnEventException0 →
  m_queEvent (dispatched vOnEvent LogOnEventException LogOnEventException0 s msg)
  = m_queEvent s
  ∧ try_catch (vOnEvent msg s)
      (Run_catch LogOnEventException LogOnEventException0)
    = Normal (dispatched vOnEvent LogOnEventException LogOnEventException0 s msg).
Proof.
  intros (Hv & H1 & H0). unfold dispatched. specialize (Hv msg s).
  destruct (vOnEvent msg s) as [s'|e s'|s']; simpl; [auto| |contradiction].
  split; [|reflexivity]. unfold Run_catch.
  destruct (what e); [rewrite H1 | rewrite H0]; exact Hv.
Qed.

(** X5.  With a callback and hooks that leave the queue alone, and while
    [fnContinue] holds, [Run] takes the queued events one per iteration in
    their order and runs the callback once on each, a throwing callback
    being followed by its hook and not ending the loop; this is so
    whether or not the queue is shut down.  After as many iterations as
    there were events the queue is empty and the loop is at its head. *)
Theorem Run_handles_queue_in_order
    (xs : list TEvent_) (sched : list (list (LockedQueue.other_thread TEvent_)))
    (msg : TEvent_) (s : EventDriven.t TEvent_ D) :
  keeps_queue vOnEvent LogOnEventException LogOnEventException0 →
  (∀ s', fnContinue s' = true) →
  LockedQueue.m_que (m_queEvent s) = xs →
  length sched = length xs →
  Run vOnEvent LogOnEventException LogOnEventException0 fnContinue unTimeout
    sched msg s
  = RunLooping (List.last xs msg)
      (foldl (taken_and_dispatched vOnEvent LogOnEventException LogOnEventException0)
         s xs)
  ∧ LockedQueue.m_que
      (m_queEvent
         (foldl (taken_and_dispatched vOnEvent LogOnEventException LogOnEventException0)
            s xs)) = [].
Proof.
  intros Hk Hc. revert sched msg s.
  induction xs as [|x xs IH]; intros [|others sched] msg s Hq Hlen;
    simpl in Hlen; try discriminate.
  - simpl. rewrite Hc. auto.
  - cbn [Run foldl]. rewrite Hc.
    destruct (m_queEvent s) as [que sd] eqn:Eq. simpl in Hq. subst que.
    rewrite Deq_nonempty.
    unfold taken_and_dispatched at 2 4. rewrite Eq. simpl tail.
    cbn [LockedQueue.m_que LockedQueue.m_bShutdown].
    set (s1 := with_queue {| LockedQueue.m_que := xs; LockedQueue.m_bShutdown := sd |} s).
    destruct (dispatched_queue s1 x Hk) as [Hq1 ->].
    assert (LockedQueue.m_que
              (m_queEvent
                 (dispatched vOnEvent LogOnEventException LogOnEventException0 s1 x))
            = xs) as Hq2 by (rewrite Hq1; reflexivity).
    destruct (IH sched x _ Hq2 ltac:(congruence)) as [-> ->].
    split; [|reflexivity]. f_equal.
    destruct xs as [|y xs]; [reflexivity|].
    change (List.last (x :: y :: xs) msg) with (List.last (y :: xs) msg).
    apply last_nonempty. discriminate.
Qed.

End EventDriven_more.

(** ** Signal: one slot, a set of handlers *)

Section Signal_more.
Import Signal.
Variable catchable : Z → bool.
Variable fatal : Z → bool.

(** The [for] loop of [Wait] as a whole: a handler for every number of
    the list for which [std::signal] succeeds. *)
Lemma foldl_install listSignal g :
  foldl (install catchable) g listSignal
  = {| g_snSignal := g_snSignal g; g_bWaitInUse := g_bWaitInUse g;
       installed :=
         list_to_set (filter (λ sig, catchable sig = true) (to_int <$> listSignal))
         ∪ installed g |}.
Proof.
  revert g. induction listSignal as [|sn l IH]; intros g; simpl.
  - rewrite (left_id_L ∅ (∪)). destruct g; reflexivity.
  - rewrite IH. change (list_fmap Z Z to_int l) with (to_int <$> l).
    unfold install. destruct (catchable (to_int sn)) eqn:E.
    + rewrite filter_cons_True by exact E. simpl. f_equal.
      rewrite (assoc_L (∪)).
      rewrite (comm_L (∪) (list_to_set _) {[to_int sn]}).
      reflexivity.
    + rewrite filter_cons_False by (rewrite E; discriminate). reflexivity.
Qed.

Lemma list_to_set_filter (P : Z → Prop) `{∀ x, Decision (P x)} (l1 l2 : list Z) :
  list_to_set (C := gset Z) l1 = list_to_set l2 →
  list_to_set (C := gset Z) (filter P l1) = list_to_set (filter P l2).
Proof.
  intros Hset. apply set_eq. intros x.
  rewrite !elem_of_list_to_set, !list_elem_of_filter.
  rewrite <- !(elem_of_list_to_set (C := gset Z)), Hset. reflexivity.
Qed.

Lemma Wait_loop_installed sleeps g :
  match Wait_loop fatal sleeps g with
  | WaitReturn _ g' | WaitPolling g' | WaitEnded g' => installed g' = installed g
  | WaitThrows _ _ => False
  end.
Proof.
  pose proof (Wait_loop_return fatal sleeps g) as H.
  destruct (Wait_loop fatal sleeps g).
  - destruct H as (_ & _ & ->). reflexivity.
  - exact H.
  - destruct H as (_ & _ & H). exact H.
  - destruct H as (_ & H & _). exact H.
Qed.

Lemma to_int_small z : - 2 ^ 31 ≤ z < 2 ^ 31 → to_int z = z.
Proof. intros Hr. unfold to_int. rewrite Z.mod_small by lia. lia. Qed.

(** The slot after a sleep whose last event stores [n]. *)
Lemma slot_after_last_event evs ev n g g2 :
  n ≠ 0 → - 2 ^ 31 ≤ n < 2 ^ 31 →
  sleep_for fatal evs g = Lives g2 →
  ev = Raised n ∨ (ev = Delivered n ∧ n ∈ installed g) →
  ∃ g3, sleep_for fatal (evs ++ [ev]) g = Lives g3 ∧ g_snSignal g3 = n.
Proof.
  intros Hn Hr Hev2 Hev. rewrite sleep_for_app, Hev2.
  destruct (sleep_for_keeps _ _ _ _ Hev2) as [_ Hi].
  destruct Hev as [-> | [-> Hin]]; simpl.
  - eexists. split; [reflexivity|].
    unfold Raise. rewrite (proj2 (Z.eqb_neq n 0) Hn). simpl.
    apply to_int_small, Hr.
  - rewrite Hi, decide_True by exact Hin. eexists. split; reflexivity.
Qed.

(** Whether the process lives through a sleep depends on the
    dispositions only. *)
Lemma sleep_for_lives_installed evs :
  ∀ g g2 g', installed g' = installed g →
             sleep_for fatal evs g = Lives g2 →
             ∃ g2', sleep_for fatal evs g' = Lives g2'.
Proof.
  induction evs as [|e evs IH]; intros g g2 g' Hi; simpl; [eauto|].
  destruct e as [m|m]; simpl; [rewrite Hi|].
  - destruct (decide (m ∈ installed g)); [apply IH; exact Hi|].
    destruct (fatal m); [discriminate|]. apply IH; exact Hi.
  - apply IH. unfold Raise. destruct (m =? 0); exact Hi.
Qed.

(** [Wait] on an empty slot, by the last event of its first sleep. *)
Lemma Wait_last_of_sleep listSignal evs ev n sleeps g g2 :
  g_bWaitInUse g = false → g_snSignal g = 0 →
  n ≠ 0 → - 2 ^ 31 ≤ n < 2 ^ 31 →
  sleep_for fatal evs (foldl (install catchable) g listSignal) = Lives g2 →
  ev = Raised n ∨ (ev = Delivered n ∧ n ∈ listSignal ∧ catchable n = true) →
  Wait catchable fatal listSignal ((evs ++ [ev]) :: sleeps) g
  = WaitReturn n
      {| g_snSignal := 0; g_bWaitInUse := false;
         installed :=
           list_to_set (filter (λ sig, catchable sig = true) (to_int <$> listSignal))
           ∪ installed g |}.
Proof.
  intros Hu Hs Hn Hr Hlive Hev. unfold Wait. rewrite Hu.
  rewrite foldl_install in Hlive |- *.
  cbn [Wait_loop g_snSignal g_bWaitInUse installed] in Hlive |- *.
  rewrite Hs in Hlive |- *. simpl negb. cbv iota.
  set (I := list_to_set _ ∪ installed g) in *.
  destruct (sleep_for_lives_installed evs
              {| g_snSignal := 0; g_bWaitInUse := g_bWaitInUse g; installed := I |}
              g2
              {| g_snSignal := 0; g_bWaitInUse := true; installed := I |}
              eq_refl Hlive) as [g1 Hlive1].
  destruct (slot_after_last_event evs ev n _ g1 Hn Hr Hlive1) as (g3 & Hg3 & Hslot).
  { destruct Hev as [->|(-> & Hin & Hc)]; [left; reflexivity|right].
    split; [reflexivity|]. subst I. simpl.
    apply elem_of_union_l, elem_of_list_to_set, list_elem_of_filter.
    split; [exact Hc|]. apply list_elem_of_fmap.
    exists n. split; [symmetry; apply to_int_small, Hr | exact Hin]. }
  rewrite Hg3. destruct (sleep_for_keeps _ _ _ _ Hg3) as [_ Hi].
  destruct sleeps; simpl; rewrite Hslot, (proj2 (Z.eqb_neq n 0) Hn); simpl;
    rewrite Hi; reflexivity.
Qed.

(** X6.  The slot holds one value: of the events of one sleep only the
    last is seen.  When [Wait] finds the slot empty, the process lives
    through the events [evs] of the sleep that follows, and that sleep
    ends with [Raise(n)], or with the delivery of a signal [n] of the list
    for which [std::signal] succeeded, [n] non-zero and an [int], then
    [Wait] returns [n] at the next poll, whatever was raised or delivered
    earlier in that sleep. *)
Theorem Wait_returns_last_of_sleep listSignal evs ev n sleeps g g2 :
  g_bWaitInUse g = false → g_snSignal g = 0 →
  n ≠ 0 → - 2 ^ 31 ≤ n < 2 ^ 31 →
  sleep_for fatal evs (foldl (install catchable) g listSignal) = Lives g2 →
  ev = Raised n ∨ (ev = Delivered n ∧ n ∈ listSignal ∧ catchable n = true) →
  Wait catchable fatal listSignal ((evs ++ [ev]) :: sleeps) g
  = WaitReturn n
      {| g_snSignal := 0; g_bWaitInUse := false;
         installed :=
           list_to_set (filter (λ sig, catchable sig = true) (to_int <$> listSignal))
           ∪ installed g |}.
Proof. apply Wait_last_of_sleep. Qed.

(** X7.  Only the set of the signal numbers of [listSignal], as [int]s,
    matters to [Wait]: their order and their repetitions do not. *)
Theorem Wait_depends_on_set_of_signals listSignal listSignal' sleeps g :
  list_to_set (C := gset Z) (to_int <$> listSignal)
    = list_to_set (to_int <$> listSignal') →
  Wait catchable fatal listSignal sleeps g = Wait catchable fatal listSignal' sleeps g.
Proof.
  intros Hset. unfold Wait. rewrite !foldl_install.
  rewrite (list_to_set_filter _ _ _ Hset). reflexivity.
Qed.

(** X8.  [Wait] sets [vSignalHandler] for those signals of its list for
    which [std::signal] succeeds, ignores the failures, and never
    restores a disposition: when it returns, while it polls, and when the
    process is ended, the handled signals are those handled before
    together with the catchable ones of the list.  When it throws it has
    changed nothing. *)
Theorem Wait_only_adds_handlers listSignal sleeps g :
  match Wait catchable fatal listSignal sleeps g with
  | WaitReturn _ g' | WaitPolling g' | WaitEnded g' =>
      installed g'
      = list_to_set (filter (λ sig, catchable sig = true) (to_int <$> listSignal))
        ∪ installed g
  | WaitThrows _ g' => g' = g
  end.
Proof.
  unfold Wait. destruct (g_bWaitInUse g); [reflexivity|].
  rewrite foldl_install.
  pose proof (Wait_loop_installed sleeps
    {| g_snSignal := g_snSignal g; g_bWaitInUse := true;
       installed :=
         list_to_set (filter (λ sig, catchable sig = true) (to_int <$> listSignal))
         ∪ installed g |}) as H.
  destruct (Wait_loop fatal sleeps _); [exact H | contradiction | exact H | exact H].
Qed.

End Signal_more.

(** ** ProcessBase: registration, signals and stopping *)

Section ProcessBase_more.
Import ProcessBase.
Context {W : Type}.
Variable SIGUSR2 : Z.
Variable Now : W → Z.
Variable catchable : Z → bool.
Variable fatal : Z → bool.
Variable vOnStop : W → outcome W.
Implicit Types (s : ProcessBase.t W) (o : ProcessBase.object W).

Lemma emplace_lookup_ne `{Countable K} {V : Type} (k k' : K) (v : V) (m : gmap K V) :
  k ≠ k' → emplace k v m !! k' = m !! k'.
Proof.
  intros Hne. unfold emplace. destruct (m !! k); [reflexivity|].
  apply lookup_insert_ne, Hne.
Qed.

(** X9.  In each registry a registration under a key that has no handler
    makes the new handler the one of that key, and a registration never
    changes the handler of any other key. *)
Theorem Register_reaches_only_its_key s :
  (∀ k k' (h : fnTimerHandler W),
     m_mapTimerHandler (RegisterTimer k h s) !! k'
     = if decide (k = k') then Some (default h (m_mapTimerHandler s !! k))
       else m_mapTimerHandler s !! k')
  ∧ (∀ k k' (h : fnMessageHandler W),
       m_mapMessageHandler (RegisterMessageHandler SIGUSR2 k h s) !! k'
       = if decide (k = k') then Some (default h (m_mapMessageHandler s !! k))
         else m_mapMessageHandler s !! k')
  ∧ (∀ k k' (h : fnSignalHandler W),
       k ≠ SIGUSR2 →
       ∃ s', RegisterSignalHandler SIGUSR2 k h s = Normal s'
             ∧ m_mapSignalHandler s' !! k'
               = if decide (k = k') then Some (default h (m_mapSignalHandler s !! k))
                 else m_mapSignalHandler s !! k').
Proof.
  split; [|split].
  - intros k k' h. unfold RegisterTimer. simpl.
    destruct (decide (k = k')) as [<-|Hne];
      [apply emplace_lookup | apply emplace_lookup_ne, Hne].
  - intros k k' h. unfold RegisterMessageHandler. simpl.
    destruct (decide (k = k')) as [<-|Hne];
      [apply emplace_lookup | apply emplace_lookup_ne, Hne].
  - intros k k' h Hk. unfold RegisterSignalHandler.
    rewrite (proj2 (Z.eqb_neq k SIGUSR2) Hk).
    eexists. split; [reflexivity|]. simpl.
    destruct (decide (k = k')) as [<-|Hne];
      [apply emplace_lookup | apply emplace_lookup_ne, Hne].
Qed.

Lemma to_int64_to_uint64 z :
  - 2 ^ 63 ≤ z < 2 ^ 63 → to_int64 (to_uint64 z) = z.
Proof.
  intros Hr. unfold to_int64, to_uint64.
  rewrite Zplus_mod_idemp_l, Z.mod_small by lia. lia.
Qed.

(** X10.  [vDispatchSignal] looks the handler up under the signal number
    of the event, for every number of the type [SignalNo], negative ones
    included, although its local copy is unsigned: without a handler it
    posts the alert and returns, with a handler it calls that handler
    between its [Begin] and [End] lines. *)
Theorem vDispatchSignal_uses_event_number (cEvent : SignalEvent) s :
  - 2 ^ 63 ≤ snSignal cEvent < 2 ^ 63 →
  vDispatchSignal Now cEvent s
  = match m_mapSignalHandler s !! snSignal cEvent with
    | None =>
        Normal (LCC_LOG_ALERT "No handler registered for TimerId[%lu]"
                  [Logger.ArgInt (to_uint64 (snSignal cEvent))] s)
    | Some handler =>
        do s3 <- call handler cEvent
                   (LCC_LOG_DEBUG "Signal[%ld] Handler Begin."
                      [Logger.ArgInt (to_uint64 (snSignal cEvent))] s);
        Normal (LCC_LOG_DEBUG "Signal[%ld] Handler End.ElapsedTime[%ld]ms"
                  [Logger.ArgInt (to_uint64 (snSignal cEvent));
                   Logger.ArgInt
                     (Now (world s3)
                      - Now (world
                               (LCC_LOG_DEBUG "Signal[%ld] Handler Begin."
                                  [Logger.ArgInt (to_uint64 (snSignal cEvent))] s)))]
                  s3)
    end.
Proof.
  intros Hr. unfold vDispatchSignal. cbv zeta.
  rewrite to_int64_to_uint64 by exact Hr. reflexivity.
Qed.

(** X11.  Every registration of a message or signal handler, and [Stop],
    ends with [Raise(SIGUSR2)]: a signal that is pending in the slot and
    not yet polled is overwritten by the wake signal and is lost. *)
Theorem registration_overwrites_pending_signal s o :
  SIGUSR2 ≠ 0 → - 2 ^ 31 ≤ SIGUSR2 < 2 ^ 31 →
  (∀ k (h : fnMessageHandler W),
     Signal.g_snSignal (signals (RegisterMessageHandler SIGUSR2 k h s)) = SIGUSR2)
  ∧ (∀ k (h : fnSignalHandler W),
       k ≠ SIGUSR2 →
       ∃ s', RegisterSignalHandler SIGUSR2 k h s = Normal s'
             ∧ Signal.g_snSignal (signals s') = SIGUSR2)
  ∧ match Stop SIGUSR2 vOnStop o with
    | Normal o' | Throws _ o' | Undefined o' =>
        Signal.g_snSignal (signals (EventDriven.derived o')) = SIGUSR2
    end.
Proof.
  intros Hnz Hr.
  assert (∀ g, Signal.g_snSignal (Signal.Raise SIGUSR2 g) = SIGUSR2) as HR.
  { intros g. unfold Signal.Raise. rewrite (proj2 (Z.eqb_neq _ _) Hnz). simpl.
    unfold Signal.to_int. rewrite Z.mod_small by lia. lia. }
  split; [|split].
  - intros k h. unfold RegisterMessageHandler. simpl. apply HR.
  - intros k h Hk. unfold RegisterSignalHandler.
    rewrite (proj2 (Z.eqb_neq k SIGUSR2) Hk).
    eexists. split; [reflexivity|]. simpl. apply HR.
  - unfold Stop. cbv zeta. simpl.
    destruct (vOnStop _); simpl; apply HR.
Qed.

(** X12.  [Stop]: the running flag is cleared first.  When [vOnStop]
    returns, the queue is shut down, so that [Post] is refused, and
    both loops end at their next test of the flag: [vRunProcess] and the
    signal thread return without doing anything more.  When [vOnStop]
    throws, the exception leaves [Stop] and the queue is as it was. *)
Theorem Stop_ends_the_loops o :
  match Stop SIGUSR2 vOnStop o with
  | Normal o' =>
      m_bRunning (EventDriven.derived o') = false
      ∧ EventDriven.IsShutdown o' = true
      ∧ LockedQueue.m_que (EventDriven.m_queEvent o')
        = LockedQueue.m_que (EventDriven.m_queEvent o)
      ∧ (∀ msg, EventDriven.Post msg o' = (false, o'))
      ∧ (∀ sched msg, vRunProcess Now sched msg o' = EventDriven.RunReturn o')
      ∧ (∀ waits, vSignalWaitThread SIGUSR2 catchable fatal waits o' = ThreadReturns o')
  | Throws _ o' =>
      m_bRunning (EventDriven.derived o') = false
      ∧ EventDriven.m_queEvent o' = EventDriven.m_queEvent o
  | Undefined _ => ∃ w, vOnStop (world (EventDriven.derived o)) = Undefined w
  end.
Proof.
  unfold Stop. cbv zeta. simpl.
  destruct (vOnStop (world (EventDriven.derived o))) as [w|e w|w] eqn:Ev; simpl.
  - split; [reflexivity|]. split; [reflexivity|]. split; [reflexivity|].
    split; [intros msg; reflexivity|].
    split; [intros sched msg; destruct sched; reflexivity|].
    intros waits. destruct waits; reflexivity.
  - auto.
  - eauto.
Qed.

Lemma Post_queue (ev : ProcessEvent) o :
  LockedQueue.m_que (EventDriven.m_queEvent (EventDriven.Post ev o).2)
  = LockedQueue.m_que (EventDriven.m_queEvent o)
    ++ (if LockedQueue.m_bShutdown (EventDriven.m_queEvent o) then [] else [ev])
  ∧ LockedQueue.m_bShutdown (EventDriven.m_queEvent (EventDriven.Post ev o).2)
    = LockedQueue.m_bShutdown (EventDriven.m_queEvent o)
  ∧ EventDriven.derived (EventDriven.Post ev o).2 = EventDriven.derived o.
Proof.
  unfold EventDriven.Post, LockedQueue.Enq.
  destruct (LockedQueue.m_bShutdown (EventDriven.m_queEvent o)) eqn:E; simpl;
    rewrite ?E, ?app_nil_r; auto.
Qed.

(** X13.  The signal thread never turns the wake signal into an event:
    whatever is raised or delivered, all it adds to the queue are
    [SignalEvent]s with a number other than [SIGUSR2] and other than 0,
    at the back; it leaves the handler maps, the running flag and the
    state of the application alone. *)
Theorem vSignalWaitThread_posts_no_wake_signal
    (waits : list (list (list Signal.event))) o :
  let o' := thread_object (vSignalWaitThread SIGUSR2 catchable fatal waits o) in
  (∃ posted,
     LockedQueue.m_que (EventDriven.m_queEvent o')
     = LockedQueue.m_que (EventDriven.m_queEvent o) ++ posted
     ∧ Forall (λ ev, ∃ sn, ev = EvSignal (mk_SignalEvent sn)
                          ∧ sn ≠ SIGUSR2 ∧ sn ≠ 0) posted)
  ∧ m_mapSignalHandler (EventDriven.derived o')
    = m_mapSignalHandler (EventDriven.derived o)
  ∧ m_mapMessageHandler (EventDriven.derived o')
    = m_mapMessageHandler (EventDriven.derived o)
  ∧ m_mapTimerHandler (EventDriven.derived o')
    = m_mapTimerHandler (EventDriven.derived o)
  ∧ m_bRunning (EventDriven.derived o') = m_bRunning (EventDriven.derived o)
  ∧ world (EventDriven.derived o') = world (EventDriven.derived o).
Proof.
  simpl. revert o. induction waits as [|sleeps waits IH]; intros o.
  - simpl. destruct (m_bRunning (EventDriven.derived o)) eqn:Er; simpl;
      (split; [exists []; rewrite app_nil_r; auto | auto 10]).
  - cbn [vSignalWaitThread].
    destruct (m_bRunning (EventDriven.derived o)) eqn:Er; simpl;
      [|split; [exists []; rewrite app_nil_r; auto | auto 10]].
    destruct (Signal.Wait _ _ _ sleeps (signals (EventDriven.derived o)))
      as [sn g | e g | g | g] eqn:Ew; simpl;
      try solve [split; [exists []; rewrite app_nil_r; auto | auto 10]].
    assert (sn ≠ 0) as Hsn.
    { unfold Signal.Wait in Ew.
      destruct (Signal.g_bWaitInUse (signals (EventDriven.derived o)));
        [discriminate|].
      match type of Ew with Signal.Wait_loop _ ?sl ?g0 = _ =>
        pose proof (Wait_loop_return fatal sl g0) as Hr; rewrite Ew in Hr end.
      apply Hr. }
    destruct (sn =? SIGUSR2) eqn:Esn.
    + destruct (IH (with_derived (with_signals g (EventDriven.derived o)) o))
        as (Hp & H1 & H2 & H3 & H4 & H5).
      simpl in H1, H2, H3, H4, H5.
      split; [exact Hp|]. repeat split; congruence.
    + apply Z.eqb_neq in Esn.
      set (o1 := with_derived (with_signals g (EventDriven.derived o)) o).
      destruct (Post_queue (EvSignal (mk_SignalEvent sn)) o1) as (Hq & _ & Hd).
      destruct (IH (EventDriven.Post (EvSignal (mk_SignalEvent sn)) o1).2)
        as ((posted & Hp & Hall) & H1 & H2 & H3 & H4 & H5).
      rewrite Hd in H1, H2, H3, H4, H5. simpl in H1, H2, H3, H4, H5.
      split; [|repeat split; congruence].
      rewrite Hq, <- app_assoc in Hp. simpl in Hp.
      eexists. split; [exact Hp|].
      apply Forall_app. split; [|exact Hall].
      destruct (LockedQueue.m_bShutdown _); [constructor|].
      constructor; [eauto|constructor].
Qed.

End ProcessBase_more.

(** ** Logger: the mask and the table of labels *)

Section Logger_more.
Import Logger.

Lemma land_bit m i :
  0 ≤ i → Z.land m (2 ^ i) = if Z.testbit m i then 2 ^ i else 0.
Proof.
  intros Hi. apply Z.bits_inj'. intros n Hn.
  rewrite Z.land_spec, Z.pow2_bits_eqb by exact Hi.
  destruct (Z.eqb_spec i n) as [<-|Hne].
  - destruct (Z.testbit m i) eqn:Eb.
    + rewrite Z.pow2_bits_eqb, Z.eqb_refl by exact Hi. reflexivity.
    + rewrite Z.bits_0. reflexivity.
  - rewrite andb_false_r. destruct (Z.testbit m i).
    + rewrite Z.pow2_bits_eqb by exact Hi.
      symmetry. apply Z.eqb_neq, Hne.
    + rewrite Z.bits_0. reflexivity.
Qed.

(** X14.  A message of kind index [i], [i] below 32, is put into the
    logger's queue exactly when bit [i] of the mask is set (and then on
    the terms of [Enq]: not after the queue is shut down); otherwise the
    logger is left as it is. *)
Theorem WriteFormatWithContext_follows_mask unLogKindIndex fmt args lg :
  0 ≤ unLogKindIndex < 32 →
  WriteFormatWithContext unLogKindIndex fmt args lg
  = if Z.testbit (m_unLogMask lg) unLogKindIndex then
      {| m_unLogMask := m_unLogMask lg;
         m_queMessage :=
           (LockedQueue.Enq
              {| line_kind := 2 ^ unLogKindIndex; line_fmt := fmt;
                 line_args := args |}
              (m_queMessage lg)).2 |}
    else lg.
Proof.
  intros Hi. unfold WriteFormatWithContext, Write. cbv zeta.
  assert (Z.shiftl 1 unLogKindIndex mod 2 ^ 32 = 2 ^ unLogKindIndex) as ->.
  { rewrite Z.shiftl_1_l. apply Z.mod_small. split; [lia|].
    apply Z.pow_lt_mono_r; lia. }
  rewrite land_bit by lia.
  destruct (Z.testbit (m_unLogMask lg) unLogKindIndex).
  - rewrite (proj2 (Z.eqb_neq (2 ^ unLogKindIndex) 0)) by lia. reflexivity.
  - reflexivity.
Qed.

Lemma left_justified_length n s : String.length (left_justified n s) = n.
Proof.
  revert s. induction n as [|n IH]; intros s; [reflexivity|].
  destruct s; simpl; rewrite IH; reflexivity.
Qed.

(** X15.  [RegisterCustomLogKindLabel] accepts exactly a label that is
    not null with an index from 16 to 31.  Then the entry of that index
    becomes the label cut or padded with spaces to 15 characters; no
    other entry changes, and the reserved entries 0 to 15 never change;
    a refused call changes nothing. *)
Theorem RegisterCustomLogKindLabel_spares_reserved
    unLogKindIndex pszLabel (m_szLogKindLabel : list string) :
  0 ≤ unLogKindIndex < 256 →
  length m_szLogKindLabel = 32%nat →
  let r := RegisterCustomLogKindLabel unLogKindIndex pszLabel m_szLogKindLabel in
  r.1 = bool_decide (is_Some pszLabel ∧ 16 ≤ unLogKindIndex < 32)
  ∧ length r.2 = 32%nat
  ∧ (∀ i : nat, i ≠ Z.to_nat unLogKindIndex ∨ r.1 = false →
       r.2 !! i = m_szLogKindLabel !! i)
  ∧ (∀ i : nat, (i < 16)%nat → r.2 !! i = m_szLogKindLabel !! i)
  ∧ (∀ label, pszLabel = Some label → r.1 = true →
       r.2 !! Z.to_nat unLogKindIndex = Some (left_justified 15 label)
       ∧ String.length (left_justified 15 label) = 15%nat).
Proof.
  intros Hi Hlen. unfold RegisterCustomLogKindLabel, RegisterLogKindLabelByIndex.
  unfold k_unLogReserveKindBits, k_unLogKindBits. cbv zeta.
  destruct pszLabel as [label|]; cbn [fst snd].
  2: { rewrite bool_decide_eq_false_2 by (intros [[? ?] _]; discriminate).
       repeat split; auto; intros; discriminate. }
  destruct (unLogKindIndex <? 16) eqn:E1; cbn [fst snd].
  { apply Z.ltb_lt in E1.
    rewrite bool_decide_eq_false_2 by lia.
    repeat split; auto; intros; discriminate. }
  apply Z.ltb_ge in E1.
  destruct (32 <=? unLogKindIndex) eqn:E2; cbn [fst snd].
  { apply Z.leb_le in E2.
    rewrite bool_decide_eq_false_2 by lia.
    repeat split; auto; intros; discriminate. }
  apply Z.leb_gt in E2.
  rewrite bool_decide_eq_true_2 by (split; [eauto | lia]).
  split; [reflexivity|]. split; [rewrite length_insert; exact Hlen|].
  split; [|split].
  - intros i [Hne|?]; [|discriminate]. apply list_lookup_insert_ne. lia.
  - intros i Hlt. apply list_lookup_insert_ne. lia.
  - intros l [= <-] _. split; [|apply left_justified_length].
    apply list_lookup_insert_eq. lia.
Qed.

(** X16.  After [InitLogKindLabels] every one of the 32 entries, whatever
    it held, is a label of 15 characters: the sixteen names of the
    library and of the application kinds, and [UNDEF] for the custom
    indices 16 to 31. *)
Theorem InitLogKindLabels_fills_table (m_szLogKindLabel : list string) :
  length m_szLogKindLabel = 32%nat →
  let tab := InitLogKindLabels m_szLogKindLabel in
  length tab = 32%nat
  ∧ Forall (λ label, String.length label = 15%nat) tab
  ∧ take 16 tab
    = ["LCC_DUMP       "; "LCC_DETAIL     "; "LCC_DEBUG      "; "LCC_SEND       ";
       "LCC_RECV       "; "LCC_INFO       "; "LCC_ALERT      "; "LCC_ERROR      ";
       "DUMP           "; "DETAIL         "; "DEBUG          "; "SEND           ";
       "RECV           "; "INFO           "; "ALERT          "; "ERROR          "]
  ∧ drop 16 tab = replicate 16 "UNDEF          ".
Proof.
  intros Hlen.
  do 33 (destruct m_szLogKindLabel as [|? m_szLogKindLabel]; try discriminate).
  vm_compute. repeat split; repeat constructor.
Qed.

End Logger_more.

(** ** TimerManager: what stops a timer and what does not *)

Section TimerManager_more.
Import TimerManager.
Context {TEvent_ D : Type}.
Implicit Types (tm : TimerManager.t TEvent_) (r : EventDriven.t TEvent_ D).

Lemma wake_started unTimerId unDelayMs (pcMsg : TEvent_) tm
    (receiver : option (EventDriven.t TEvent_ D)) (m : gmap Z nat) :
  m_bShutdown tm = false →
  wake (spawned tm)
    {| m_bShutdown := m_bShutdown tm; m_mapTimers := m;
       threads := <[spawned tm := mk_sleeper unTimerId unDelayMs pcMsg]> (threads tm);
       spawned := S (spawned tm) |}
    receiver
  = ({| m_bShutdown := m_bShutdown tm; m_mapTimers := delete unTimerId m;
        threads := delete (spawned tm) (threads tm);
        spawned := S (spawned tm) |},
     match receiver with
     | Some spReceiver => Some (EventDriven.Post pcMsg spReceiver).2
     | None => None
     end).
Proof.
  intros Hs. unfold wake. simpl. rewrite lookup_insert_eq. simpl.
  rewrite Hs. unfold vRemoveTimer. simpl. rewrite delete_insert_eq.
  reflexivity.
Qed.

(** X17.  [StopTimer] does not keep a timer from firing: it erases the
    entry and detaches the thread, and the detached thread, when its sleep
    ends, posts the event all the same (the manager not being shut down
    and the receiver being there). *)
Theorem StopTimer_does_not_cancel unTimerId unDelayMs (pcMsg : TEvent_) tm r :
  m_bShutdown tm = false →
  wake (spawned tm)
    (StopTimer unTimerId (StartTimer unTimerId unDelayMs pcMsg tm)) (Some r)
  = ({| m_bShutdown := false; m_mapTimers := delete unTimerId (m_mapTimers tm);
        threads := delete (spawned tm) (threads tm);
        spawned := S (spawned tm) |},
     Some (EventDriven.Post pcMsg r).2).
Proof.
  intros Hs. unfold StopTimer, StartTimer. simpl.
  rewrite (wake_started unTimerId unDelayMs pcMsg tm (Some r)) by exact Hs.
  rewrite Hs, delete_insert_eq, !delete_delete_eq. reflexivity.
Qed.

Lemma run_step_keeps_shutdown (st : TimerManager.t TEvent_ * option (EventDriven.t TEvent_ D))
    (a : step TEvent_) :
  m_bShutdown st.1 = true →
  m_bShutdown (run_step st a).1 = true ∧ (run_step st a).2 = st.2.
Proof.
  intros Hs. destruct a as [k d msg | k | | th]; simpl; auto.
  unfold wake. destruct (threads st.1 !! th); simpl; [|auto].
  rewrite Hs. simpl. auto.
Qed.

(** X18.  After [StopAllTimers] nothing is ever posted again: whatever
    timers are started or stopped afterwards and whichever threads wake,
    those that slept through the call and those started later alike, the
    receiver stays as it is. *)
Theorem StopAllTimers_silences_all_timers tm
    (receiver : option (EventDriven.t TEvent_ D)) (steps : list (step TEvent_)) :
  (foldl run_step (StopAllTimers tm, receiver) steps).2 = receiver
  ∧ m_bShutdown (foldl run_step (StopAllTimers tm, receiver) steps).1 = true.
Proof.
  assert (∀ st : TimerManager.t TEvent_ * option (EventDriven.t TEvent_ D),
            m_bShutdown st.1 = true →
            (foldl run_step st steps).2 = st.2
            ∧ m_bShutdown (foldl run_step st steps).1 = true) as H.
  { induction steps as [|a steps IH]; intros st Hs; simpl; [auto|].
    destruct (run_step_keeps_shutdown st a Hs) as [Hs' Hr].
    destruct (IH _ Hs') as [-> ->]. auto. }
  apply (H (StopAllTimers tm, receiver)). reflexivity.
Qed.

(** X19.  Starting a timer again under the same id does not withdraw the
    first event.  When both threads have woken, the older first, both
    events are in the queue; and from the moment the older thread has
    woken the registry has no entry for the id, although the newer timer
    is still to fire, so that [StopTimer] finds nothing to stop. *)
Theorem StartTimer_again_delivers_both unTimerId d1 d2 (msg1 msg2 : TEvent_) tm r :
  m_bShutdown tm = false →
  LockedQueue.m_bShutdown (EventDriven.m_queEvent r) = false →
  let tm2 := StartTimer unTimerId d2 msg2 (StartTimer unTimerId d1 msg1 tm) in
  let after_first := wake (spawned tm) tm2 (Some r) in
  let after_both := wake (S (spawned tm)) after_first.1 after_first.2 in
  m_mapTimers tm2 !! unTimerId = Some (S (spawned tm))
  ∧ m_mapTimers after_first.1 !! unTimerId = None
  ∧ threads after_first.1 !! S (spawned tm)
    = Some (mk_sleeper unTimerId d2 msg2)
  ∧ StopTimer unTimerId after_first.1 = after_first.1
  ∧ ∃ r', after_both.2 = Some r'
          ∧ LockedQueue.m_que (EventDriven.m_queEvent r')
            = LockedQueue.m_que (EventDriven.m_queEvent r) ++ [msg1; msg2].
Proof.
  intros Hs Hq. cbv zeta.
  set (n := spawned tm).
  set (sl1 := mk_sleeper unTimerId d1 msg1).
  set (sl2 := mk_sleeper unTimerId d2 msg2).
  set (tm2 := StartTimer unTimerId d2 msg2 (StartTimer unTimerId d1 msg1 tm)).
  assert (threads tm2 = <[S n := sl2]> (<[n := sl1]> (threads tm))) as Ht2
    by reflexivity.
  assert (m_bShutdown tm2 = false) as Hs2 by exact Hs.
  assert (wake n tm2 (Some r)
          = ({| m_bShutdown := false;
                m_mapTimers := delete unTimerId (m_mapTimers tm2);
                threads := delete n (threads tm2);
                spawned := spawned tm2 |},
             Some (EventDriven.Post msg1 r).2)) as Hw1.
  { unfold wake. rewrite Ht2.
    rewrite lookup_insert_ne by lia. rewrite lookup_insert_eq.
    cbn [m_bShutdown]. rewrite Hs2. reflexivity. }
  rewrite Hw1. cbn [fst snd].
  split. { subst tm2. unfold StartTimer. simpl. apply lookup_insert_eq. }
  split. { cbn [m_mapTimers]. apply lookup_delete_eq. }
  split. { cbn [threads]. rewrite Ht2.
           rewrite lookup_delete_ne by lia. apply lookup_insert_eq. }
  split. { unfold StopTimer. cbn [m_bShutdown m_mapTimers threads spawned].
           rewrite delete_delete_eq. reflexivity. }
  unfold wake. cbn [threads]. rewrite Ht2.
  rewrite lookup_delete_ne by lia. rewrite lookup_insert_eq.
  cbn [m_bShutdown]. cbv iota.
  eexists. split; [reflexivity|].
  rewrite (Post_open msg1 r Hq). cbn [snd].
  rewrite Post_open by reflexivity. simpl.
  rewrite <- app_assoc. reflexivity.
Qed.

End TimerManager_more.

(** ** ProcessBase: from a signal or a timer to its handler *)

Section ProcessBase_paths.
Import ProcessBase.
Context {W : Type}.
Variable SIGUSR2 : Z.
Variable Now : W → Z.
Variable catchable : Z → bool.
Variable fatal : Z → bool.
Implicit Types (s : ProcessBase.t W) (o : ProcessBase.object W).

(** X21.  A signal [n] for which a handler is registered and for which
    [std::signal] succeeds, delivered last in a sleep of the signal
    thread's [Wait], the process having lived through the earlier events
    [evs] of that sleep: the thread posts a [SignalEvent] with its number
    at the back of the queue, and the dispatch of that event calls the
    registered handler. *)
Theorem delivered_signal_reaches_handler
    (n : Z) (h : fnSignalHandler W) evs sleeps o g2 :
  m_bRunning (EventDriven.derived o) = true →
  LockedQueue.m_bShutdown (EventDriven.m_queEvent o) = false →
  Signal.g_bWaitInUse (signals (EventDriven.derived o)) = false →
  Signal.g_snSignal (signals (EventDriven.derived o)) = 0 →
  m_mapSignalHandler (EventDriven.derived o) !! n = Some h →
  n ≠ 0 → n ≠ SIGUSR2 → - 2 ^ 31 ≤ n < 2 ^ 31 →
  catchable n = true →
  Signal.sleep_for fatal evs
    (foldl (Signal.install catchable) (signals (EventDriven.derived o))
       ((map_to_list (m_mapSignalHandler (EventDriven.derived o))).*1 ++ [SIGUSR2]))
  = Signal.Lives g2 →
  ∃ o',
    vSignalWaitThread SIGUSR2 catchable fatal
      [(evs ++ [Signal.Delivered n]) :: sleeps] o
    = ThreadAtHead o'
    ∧ LockedQueue.m_que (EventDriven.m_queEvent o')
      = LockedQueue.m_que (EventDriven.m_queEvent o)
        ++ [EvSignal (mk_SignalEvent n)]
    ∧ vOnEvent Now (EvSignal (mk_SignalEvent n)) (EventDriven.derived o')
      = (let s2 := LCC_LOG_DEBUG "Signal[%ld] Handler Begin."
                     [Logger.ArgInt (to_uint64 n)] (EventDriven.derived o') in
         do s3 <- call h (mk_SignalEvent n) s2;
         Normal (LCC_LOG_DEBUG "Signal[%ld] Handler End.ElapsedTime[%ld]ms"
                   [Logger.ArgInt (to_uint64 n);
                    Logger.ArgInt (Now (world s3) - Now (world s2))] s3)).
Proof.
  intros Hrun Hq Hu Hslot Hh Hn Hne Hr Hc Hlive.
  cbn [vSignalWaitThread]. rewrite Hrun.
  rewrite (Wait_last_of_sleep catchable fatal _ evs (Signal.Delivered n) n sleeps
             _ g2 Hu Hslot Hn Hr Hlive).
  2: { right. split; [reflexivity|]. split; [|exact Hc]. apply elem_of_app. left.
       apply list_elem_of_fmap. exists (n, h). split; [reflexivity|].
       apply elem_of_map_to_list, Hh. }
  rewrite (proj2 (Z.eqb_neq n SIGUSR2) Hne).
  rewrite Post_open by exact Hq.
  cbn -[lookup map_to_list to_uint64 to_int64 Z.sub filter]. rewrite Hrun.
  eexists. split; [reflexivity|]. split; [reflexivity|].
  unfold vOnEvent, vDispatchSignal. cbv zeta. cbn [snSignal].
  rewrite to_int64_to_uint64 by lia.
  match goal with
  | |- context [m_mapSignalHandler ?x !! n] =>
      change (m_mapSignalHandler x !! n)
        with (m_mapSignalHandler (EventDriven.derived o) !! n)
  end.
  rewrite Hh. reflexivity.
Qed.

(** X22.  A timer started through [vStartTimer] for an id with a
    registered handler: when its thread wakes (manager not shut down,
    queue open) a [TimerEvent] with that id is at the back of the queue and
    the registry entry is gone, and the dispatch of that event calls the
    registered handler. *)
Theorem started_timer_reaches_handler
    (k unDelayMs : Z) (h : fnTimerHandler W) (tm : TimerManager.t ProcessEvent) o :
  TimerManager.m_bShutdown tm = false →
  LockedQueue.m_bShutdown (EventDriven.m_queEvent o) = false →
  m_mapTimerHandler (EventDriven.derived o) !! k = Some h →
  ∃ s1 tm1 tm2 o',
    vStartTimer k unDelayMs (EventDriven.derived o) (Some tm) = (s1, Some tm1)
    ∧ TimerManager.m_mapTimers tm1 !! k = Some (TimerManager.spawned tm)
    ∧ TimerManager.wake (TimerManager.spawned tm) tm1 (Some (with_derived s1 o))
      = (tm2, Some o')
    ∧ TimerManager.m_mapTimers tm2 !! k = None
    ∧ LockedQueue.m_que (EventDriven.m_queEvent o')
      = LockedQueue.m_que (EventDriven.m_queEvent o)
        ++ [EvTimer (mk_TimerEvent k)]
    ∧ vOnEvent Now (EvTimer (mk_TimerEvent k)) (EventDriven.derived o')
      = (let s2 := LCC_LOG_DEBUG "TimerId[%lu] Handler Begin."
                     [Logger.ArgInt k] (EventDriven.derived o') in
         do s3 <- call h (mk_TimerEvent k) s2;
         Normal (LCC_LOG_DEBUG "TimerId[%lu] Handler End.ElapsedTime[%ld]ms"
                   [Logger.ArgInt k;
                    Logger.ArgInt (Now (world s3) - Now (world s2))] s3)).
Proof.
  intros Hs Hq Hh. unfold vStartTimer.
  eexists _, _, _, _. split; [reflexivity|].
  split; [apply lookup_insert_eq|].
  unfold TimerManager.StartTimer, TimerManager.StopTimer. simpl.
  rewrite (wake_started k unDelayMs (EvTimer (mk_TimerEvent k)) tm
             (Some (with_derived
                      (LCC_LOG_DEBUG "TimerId[%lu] Start." [Logger.ArgInt k]
                         (EventDriven.derived o)) o))) by exact Hs.
  split; [reflexivity|]. simpl.
  split; [apply lookup_delete_eq|].
  rewrite Post_open by exact Hq. simpl.
  split; [reflexivity|].
  unfold vDispatchTimer. cbv zeta. simpl. rewrite Hh. reflexivity.
Qed.

End ProcessBase_paths.

(** ** IniFile: stores, lines and files *)

Section IniFile_more.
Import IniFile.
Implicit Types (s k v line sec : string) (c : ascii)
  (d : gmap string (gmap string string)).

(** What [Get] reads, as an optional value. *)
Lemma Get_Set_lookup strSection strKey strValue d sec k :
  Set_ strSection strKey strValue d !! sec ≫= (λ m, m !! k)
  = if decide (strSection = sec ∧ strKey = k) then Some strValue
    else d !! sec ≫= (λ m, m !! k).
Proof.
  unfold Set_. destruct (decide (strSection = sec)) as [<-|Hs].
  - rewrite lookup_insert_eq. simpl.
    destruct (decide (strKey = k)) as [<-|Hk].
    + rewrite lookup_insert_eq, decide_True by auto. reflexivity.
    + rewrite lookup_insert_ne, decide_False by (try intros [_ ?]; auto).
      destruct (d !! strSection); reflexivity.
  - rewrite lookup_insert_ne, decide_False by (try intros [? _]; auto).
    reflexivity.
Qed.

(** X23.  [Set] and [Get]: a value that is set is the value [Get]
    returns for that section and key, whatever was stored, and a [Set]
    changes the answer of [Get] for no other section or key. *)
Theorem Get_after_Set strSection strKey strValue d sec k strDefaultValue :
  Get sec k strDefaultValue (Set_ strSection strKey strValue d)
  = if decide (strSection = sec ∧ strKey = k) then strValue
    else Get sec k strDefaultValue d.
Proof.
  rewrite !Get_lookup, Get_Set_lookup.
  destruct (decide (strSection = sec ∧ strKey = k)); reflexivity.
Qed.

(** The data after a line are the data before, or those with one [Set]. *)
Lemma load_line_data st line :
  m_mapData (load_line st line) = m_mapData st
  ∨ ∃ k v, m_mapData (load_line st line)
           = Set_ (currentSection st) k v (m_mapData st).
Proof.
  unfold load_line.
  destruct (_ || _ || _); [left; reflexivity|].
  destruct (_ && _); [left; reflexivity|].
  destruct (find "=" (Trim line)); [right; eauto | left; reflexivity].
Qed.

(** X24.  [LoadFromFile] adds to the store and replaces values in it; it
    removes nothing: a section and key that [Get] could find before the
    call it can find after it, whatever the text of the file.  When the
    file cannot be opened the store is as it was, and the result is
    [false]. *)
Theorem LoadFromFile_keeps_keys (ifs : option string) d sec k :
  is_Some (d !! sec ≫= (λ m, m !! k)) →
  is_Some ((LoadFromFile ifs d).2 !! sec ≫= (λ m, m !! k))
  ∧ (ifs = None → LoadFromFile ifs d = (false, d)).
Proof.
  intros Hd. split; [|intros ->; reflexivity].
  destruct ifs as [text|]; [|exact Hd]. simpl.
  generalize (getlines text) as lines.
  generalize "" as cur. revert d Hd.
  intros d Hd cur lines. revert d cur Hd.
  induction lines as [|line lines IH]; intros d cur Hd; simpl; [exact Hd|].
  destruct (load_line {| m_mapData := d; currentSection := cur |} line)
    as [d' cur'] eqn:El.
  apply IH.
  pose proof (load_line_data {| m_mapData := d; currentSection := cur |} line) as H.
  rewrite El in H. simpl in H. destruct H as [->|(k' & v' & ->)]; [exact Hd|].
  rewrite Get_Set_lookup. destruct (decide _); [eauto | exact Hd].
Qed.

(** The string without leading whitespace is empty or begins with a
    character that is not whitespace. *)
Lemma strip_leading_cases s :
  strip_leading s = ""
  ∨ ∃ c r, strip_leading s = String c r ∧ c ∉ whitespace.
Proof.
  induction s as [|c s IH]; [left; reflexivity|].
  rewrite strip_leading_cons.
  destruct (bool_decide (c ∈ whitespace)) eqn:E; [exact IH|].
  right. exists c, s. split; [reflexivity|].
  apply (bool_decide_eq_false_1 _ E).
Qed.

Lemma strip_trailing_cons_nonws c s :
  c ∉ whitespace → strip_trailing (String c s) = String c (strip_trailing s).
Proof.
  intros Hc. rewrite strip_trailing_cons.
  rewrite (bool_decide_eq_false_2 (c ∈ whitespace)) by exact Hc.
  rewrite andb_false_r. reflexivity.
Qed.

(** A string is blank for [Trim] exactly when it has nothing but leading
    whitespace. *)
Lemma Trim_blank s : Trim s = "" ↔ strip_leading s = "".
Proof.
  rewrite Trim_strips. split.
  - intros Ht. destruct (strip_leading_cases s) as [E|(c & r & E & Hc)];
      [exact E|].
    rewrite E, strip_trailing_cons_nonws in Ht by exact Hc. discriminate.
  - intros ->. reflexivity.
Qed.

Lemma strip_leading_blank_app w s :
  strip_leading w = "" → strip_leading (w +:+ s) = strip_leading s.
Proof.
  induction w as [|c w IH]; intros Hw; [reflexivity|].
  rewrite app_cons, strip_leading_cons.
  rewrite strip_leading_cons in Hw.
  destruct (bool_decide (c ∈ whitespace)); [apply IH, Hw | discriminate].
Qed.

Lemma strip_trailing_blank w : strip_leading w = "" → strip_trailing w = "".
Proof.
  induction w as [|c w IH]; intros Hw; [reflexivity|].
  rewrite strip_leading_cons in Hw. rewrite strip_trailing_cons.
  destruct (bool_decide (c ∈ whitespace)); [|discriminate].
  rewrite (IH Hw). reflexivity.
Qed.

Lemma strip_trailing_app_blank s w :
  strip_leading w = "" → strip_trailing (s +:+ w) = strip_trailing s.
Proof.
  intros Hw. induction s as [|c s IH].
  - apply strip_trailing_blank, Hw.
  - rewrite app_cons, !strip_trailing_cons, IH. reflexivity.
Qed.

Lemma Trim_padding w1 s w2 :
  Trim w1 = "" → Trim w2 = "" → Trim (w1 +:+ s +:+ w2) = Trim s.
Proof.
  intros H1%Trim_blank H2%Trim_blank. rewrite !Trim_strips.
  rewrite strip_leading_blank_app by exact H1.
  rewrite <- !strip_leading_trailing, strip_trailing_app_blank by exact H2.
  reflexivity.
Qed.

(** X25.  Whitespace around a line changes nothing: a line read with
    blanks or tabs before it and with blanks, tabs or a carriage return
    after it (a file with CR LF line ends) has the effect of the line
    itself. *)
Theorem load_line_ignores_padding st w1 line w2 :
  Trim w1 = "" → Trim w2 = "" →
  load_line st (w1 +:+ line +:+ w2) = load_line st line.
Proof.
  intros H1 H2. unfold load_line. rewrite Trim_padding by assumption.
  reflexivity.
Qed.

Lemma find_cons ch c s :
  find ch (String c s) = None ↔ c ≠ ch ∧ find ch s = None.
Proof.
  simpl. destruct (bool_decide (c = ch)) eqn:E.
  - apply bool_decide_eq_true_1 in E.
    split; [discriminate | intros [? _]; contradiction].
  - apply bool_decide_eq_false_1 in E. destruct (find ch s); simpl; split;
      try discriminate; auto. intros [_ ?]. discriminate.
Qed.

Lemma find_app_None ch s1 s2 :
  find ch (s1 +:+ s2) = None ↔ find ch s1 = None ∧ find ch s2 = None.
Proof.
  induction s1 as [|c s1 IH].
  - change ("" +:+ s2) with s2. split; [auto | intros [_ ?]; assumption].
  - rewrite app_cons, !find_cons, IH. tauto.
Qed.

Lemma split_lf_line l rest :
  one_line l → split_lf (l +:+ String "010" rest) = l :: split_lf rest.
Proof.
  unfold one_line. induction l as [|c l IH]; intros Hl.
  - reflexivity.
  - apply find_cons in Hl as [Hc Hl].
    rewrite app_cons. simpl.
    rewrite bool_decide_eq_false_2 by exact Hc.
    rewrite (IH Hl). reflexivity.
Qed.

Lemma split_lf_unlines ls :
  Forall one_line ls → split_lf (unlines ls) = ls ++ [""].
Proof.
  induction 1 as [|l ls Hl _ IH]; [reflexivity|].
  simpl. rewrite split_lf_line, IH by exact Hl. reflexivity.
Qed.

Lemma split_lf_last l :
  one_line l → split_lf l = [l].
Proof.
  unfold one_line. induction l as [|c l IH]; intros Hl; [reflexivity|].
  apply find_cons in Hl as [Hc Hl]. simpl.
  rewrite bool_decide_eq_false_2 by exact Hc.
  rewrite (IH Hl). reflexivity.
Qed.

Lemma split_lf_unlines_app ls l :
  Forall one_line ls → one_line l →
  split_lf (unlines ls +:+ l) = ls ++ [l].
Proof.
  intros Hls Hl. induction Hls as [|l0 ls Hl0 _ IH].
  - apply split_lf_last, Hl.
  - simpl. rewrite app_assoc_str, app_cons, split_lf_line, IH by exact Hl0.
    reflexivity.
Qed.

(** X26.  The lines [std::getline] reads from a text are the lines it
    was made of: from lines each ended by a line feed, those lines; and
    a last line that is not empty is read also when no line feed follows
    it. *)
Theorem getlines_reads_the_lines (ls : list string) (l : string) :
  Forall one_line ls → one_line l → l ≠ "" →
  getlines (unlines ls) = ls
  ∧ getlines (unlines ls +:+ l) = ls ++ [l].
Proof.
  intros Hls Hl Hne. unfold getlines. split.
  - rewrite split_lf_unlines by exact Hls.
    rewrite last_snoc, bool_decide_eq_true_2 by reflexivity.
    apply removelast_last.
  - rewrite split_lf_unlines_app by assumption.
    rewrite last_snoc, bool_decide_eq_false_2 by congruence.
    reflexivity.
Qed.


Lemma unlines_app (l1 l2 : list string) :
  unlines (l1 ++ l2) = unlines l1 +:+ unlines l2.
Proof.
  induction l1 as [|l l1 IH]; [reflexivity|].
  simpl. rewrite IH, app_assoc_str, app_cons. reflexivity.
Qed.

Lemma save_keys_lines (kvs : list (string * string)) rest :
  foldr save_key rest kvs
  = unlines ((λ kv, kv.1 +:+ "=" +:+ kv.2) <$> kvs) +:+ rest.
Proof.
  induction kvs as [|kv kvs IH]; [reflexivity|].
  simpl. rewrite IH. unfold save_key.
  rewrite !app_assoc_str, app_cons. reflexivity.
Qed.

Lemma save_section_lines (sec : string * list (string * string)) rest :
  save_section sec rest = unlines (section_lines sec) +:+ rest.
Proof.
  unfold save_section, section_lines. rewrite save_keys_lines.
  destruct (bool_decide (sec.1 = "")).
  - change ("" +:+ ?x) with x. simpl app.
    rewrite unlines_app, app_assoc_str. reflexivity.
  - rewrite (unlines_app [_]), unlines_app, !app_assoc_str. simpl.
    rewrite !app_assoc_str, !app_cons. reflexivity.
Qed.

Lemma SaveToFile_text_lines (order : list (string * list (string * string))) :
  SaveToFile_text order = unlines (order ≫= section_lines).
Proof.
  induction order as [|sec order IH]; [reflexivity|].
  unfold SaveToFile_text in *. simpl.
  rewrite save_section_lines, IH, unlines_app. reflexivity.
Qed.

Lemma trimmed_Trim s : trimmed s → Trim s = s.
Proof. intros [Hl Ht]. rewrite Trim_strips, Hl, Ht. reflexivity. Qed.

Lemma front_app k c v ch :
  front (k +:+ String c v) = Some ch → (k = "" ∧ c = ch) ∨ front k = Some ch.
Proof. destruct k; simpl; [intros [= ->]; auto | auto]. Qed.

Lemma load_saved_key st k v :
  saveable_key k → saveable_value v →
  load_line st (k +:+ "=" +:+ v)
  = {| m_mapData := Set_ (currentSection st) k v (m_mapData st);
       currentSection := currentSection st |}.
Proof.
  intros (Hk & _ & Heq & H1 & H2 & H3) (Hv & _).
  assert (Trim (k +:+ "=" +:+ v) = k +:+ "=" +:+ v) as Ht.
  { rewrite Trim_key_value. destruct Hk as [-> _], Hv as [_ ->]. reflexivity. }
  rewrite load_line_key_value; rewrite ?Ht.
  - rewrite !trimmed_Trim by assumption. reflexivity.
  - exact Heq.
  - intros [[_ [=]]|Hf]%front_app. contradiction.
  - intros [[_ [=]]|Hf]%front_app. contradiction.
  - intros [[[_ [=]]|Hf]%front_app _]. contradiction.
Qed.

Lemma load_saved_header st sec :
  trimmed sec →
  load_line st ("[" +:+ sec +:+ "]")
  = {| m_mapData := m_mapData st; currentSection := sec |}.
Proof.
  intros Hsec.
  assert ("["%char ∉ whitespace) as Hl
    by (apply (bool_decide_eq_false_1 _); reflexivity).
  assert ("]"%char ∉ whitespace) as Hr
    by (apply (bool_decide_eq_false_1 _); reflexivity).
  rewrite (load_line_section st _ sec).
  - rewrite trimmed_Trim by exact Hsec. reflexivity.
  - rewrite Trim_strips.
    change ("[" +:+ sec +:+ "]") with (String "[" (sec +:+ "]")).
    rewrite strip_leading_cons, bool_decide_eq_false_2 by exact Hl.
    rewrite strip_trailing_cons_nonws by exact Hl.
    change (sec +:+ "]") with (sec +:+ String "]" "").
    rewrite strip_trailing_app by exact Hr. reflexivity.
Qed.

Lemma load_saved_keys (kvs : list (string * string)) st :
  saveable_keys kvs →
  foldl load_line st ((λ kv, kv.1 +:+ "=" +:+ kv.2) <$> kvs)
  = {| m_mapData :=
         foldl (λ d kv, Set_ (currentSection st) kv.1 kv.2 d) (m_mapData st) kvs;
       currentSection := currentSection st |}.
Proof.
  intros Hkvs. revert st.
  induction Hkvs as [|kv kvs [Hk Hv] _ IH]; intros st; simpl.
  - destruct st; reflexivity.
  - rewrite load_saved_key by assumption. rewrite IH. reflexivity.
Qed.

(** The lines of a saved section, read. *)
Lemma load_saved_section st (sec : string * list (string * string)) :
  (sec.1 ≠ "" → trimmed sec.1) → saveable_keys sec.2 →
  foldl load_line st (section_lines sec) = read_section st sec.
Proof.
  intros Hname Hkvs. unfold section_lines, read_section.
  destruct (bool_decide (sec.1 = "")) eqn:E.
  - simpl app. rewrite foldl_app, load_saved_keys by exact Hkvs. simpl.
    rewrite load_line_blank by reflexivity. reflexivity.
  - apply bool_decide_eq_false_1 in E.
    simpl app. cbn [foldl]. rewrite load_saved_header by auto.
    rewrite foldl_app, load_saved_keys by exact Hkvs. simpl.
    rewrite load_line_blank by reflexivity. reflexivity.
Qed.

Lemma load_saved_sections (order : list (string * list (string * string))) st :
  Forall (λ p, (p.1 ≠ "" → trimmed p.1) ∧ saveable_keys p.2) order →
  foldl load_line st (order ≫= section_lines) = foldl read_section st order.
Proof.
  intros Ho. revert st. induction Ho as [|sec order [H1 H2] _ IH]; intros st.
  - reflexivity.
  - rewrite bind_cons, foldl_app, load_saved_section by assumption.
    simpl. apply IH.
Qed.

Lemma one_line_app s1 s2 : one_line s1 → one_line s2 → one_line (s1 +:+ s2).
Proof. intros H1 H2. apply find_app_None. split; assumption. Qed.

Lemma section_lines_one_line (sec : string * list (string * string)) :
  one_line sec.1 → saveable_keys sec.2 → Forall one_line (section_lines sec).
Proof.
  intros Hname Hkvs. unfold section_lines.
  apply Forall_app. split.
  - destruct (bool_decide (sec.1 = "")); constructor; [|constructor].
    apply (one_line_app "["); [reflexivity|].
    apply one_line_app; [exact Hname | reflexivity].
  - apply Forall_app. split; [|repeat constructor].
    apply Forall_fmap. eapply Forall_impl; [exact Hkvs|].
    intros kv [(_ & Hk & _) [_ Hv]]. simpl.
    apply one_line_app; [exact Hk|]. apply (one_line_app "="); [reflexivity|exact Hv].
Qed.

(** Reading the text that was saved. *)
Lemma LoadFromFile_saved (order : list (string * list (string * string))) d0 :
  Forall (λ p, (p.1 ≠ "" → trimmed p.1) ∧ one_line p.1 ∧ saveable_keys p.2)
    order →
  (LoadFromFile (Some (SaveToFile_text order)) d0).2
  = m_mapData (foldl read_section {| m_mapData := d0; currentSection := "" |} order).
Proof.
  intros Ho. simpl. rewrite SaveToFile_text_lines.
  assert (Forall one_line (order ≫= section_lines)) as Hlines.
  { induction Ho as [|sec order (H1 & H2 & H3) _ IH]; [constructor|].
    rewrite bind_cons. apply Forall_app. split; [|exact IH].
    apply section_lines_one_line; assumption. }
  assert (getlines (unlines (order ≫= section_lines)) = order ≫= section_lines)
    as ->.
  { unfold getlines. rewrite split_lf_unlines by exact Hlines.
    rewrite last_snoc, bool_decide_eq_true_2 by reflexivity.
    apply removelast_last. }
  rewrite load_saved_sections; [reflexivity|].
  eapply Forall_impl; [exact Ho|]. intros p (H1 & _ & H3). auto.
Qed.


Lemma lookup_fold_keys cur (kvs : list (string * string)) d sec k :
  NoDup kvs.*1 →
  foldl (λ d kv, Set_ cur kv.1 kv.2 d) d kvs !! sec ≫= (λ m, m !! k)
  = match (if decide (cur = sec)
           then (list_to_map kvs : gmap string string) !! k else None) with
    | Some v => Some v
    | None => d !! sec ≫= (λ m, m !! k)
    end.
Proof.
  intros Hnd. revert d. induction kvs as [|[k0 v0] kvs IH]; intros d.
  - simpl. destruct (decide (cur = sec)); reflexivity.
  - apply NoDup_cons in Hnd as [Hk0 Hnd]. cbn [foldl fst snd].
    rewrite (IH Hnd), Get_Set_lookup.
    destruct (decide (cur = sec)) as [->|Hs].
    + rewrite list_to_map_cons.
      destruct (decide (k0 = k)) as [->|Hk].
      * rewrite lookup_insert_eq, decide_True by auto.
        rewrite (proj1 (not_elem_of_list_to_map kvs k) Hk0). reflexivity.
      * rewrite lookup_insert_ne, decide_False by (try intros [_ ?]; auto).
        reflexivity.
    + rewrite decide_False by (intros [? _]; auto). reflexivity.
Qed.

Lemma lookup_fold_sections (order : list (string * list (string * string))) st sec k :
  Forall (λ p, p.1 ≠ "") order →
  NoDup order.*1 → Forall (λ p, NoDup p.2.*1) order →
  m_mapData (foldl read_section st order) !! sec ≫= (λ m, m !! k)
  = match (list_to_map ((λ p, (p.1, list_to_map p.2)) <$> order)
             : gmap string (gmap string string)) !! sec ≫= (λ m, m !! k) with
    | Some v => Some v
    | None => m_mapData st !! sec ≫= (λ m, m !! k)
    end.
Proof.
  intros Hne. revert st.
  induction Hne as [|[name kvs] order Hname _ IH]; intros st Hnd Hkeys.
  - simpl. rewrite lookup_empty. reflexivity.
  - apply NoDup_cons in Hnd as [Hfresh Hnd].
    apply Forall_cons in Hkeys as [Hkvs Hkeys].
    cbn [foldl]. rewrite (IH _ Hnd Hkeys).
    unfold read_section. cbn [fst snd] in *.
    rewrite bool_decide_eq_false_2 by exact Hname. cbn [m_mapData].
    rewrite (lookup_fold_keys name kvs _ sec k Hkvs).
    rewrite fmap_cons, list_to_map_cons. cbn [fst snd].
    destruct (decide (name = sec)) as [->|Hs].
    + rewrite lookup_insert_eq.
      assert ((list_to_map ((λ p, (p.1, list_to_map p.2)) <$> order)
                 : gmap string (gmap string string)) !! sec = None) as ->.
      { apply not_elem_of_list_to_map.
        rewrite <- list_fmap_compose. exact Hfresh. }
      reflexivity.
    + rewrite lookup_insert_ne by exact Hs. reflexivity.
Qed.

(** X27.  A store written by [SaveToFile] and read by [LoadFromFile]
    gives back every value: for a store whose names, keys and values are
    free of surrounding whitespace and line feeds, with no section
    without name and with keys that have no [=] and do not begin with
    [;], [#] or [[], and for every order in which the two loops may visit
    it, [Get] on the store read back returns what [Get] returned on the
    store written.  Read into a store that is not empty, the file takes
    precedence over what is there. *)
Theorem LoadFromFile_reads_back_SaveToFile
    d (order : list (string * list (string * string))) d0 sec k strDefaultValue :
  visits d order → saveable order →
  SaveToFile true order = (true, Some (SaveToFile_text order))
  ∧ Get sec k strDefaultValue
      (LoadFromFile (Some (SaveToFile_text order)) d0).2
    = Get sec k (Get sec k strDefaultValue d0) d.
Proof.
  intros (Hnd & Hkeys & ->) Hsave. split; [reflexivity|].
  rewrite LoadFromFile_saved.
  2: { eapply Forall_impl; [exact Hsave|]. intros p (H1 & H2 & H3 & H4). auto. }
  rewrite !Get_lookup, lookup_fold_sections; try assumption.
  2: { eapply Forall_impl; [exact Hsave|]. intros p (H1 & _). exact H1. }
  cbn [m_mapData].
  destruct (_ !! sec ≫= _); reflexivity.
Qed.

(** X28.  The section without name is written without a header line.
    When the loop of [SaveToFile] visits it after a named section (the
    order of an [unordered_map] is not specified), its keys are read back
    as keys of that section, and [Get] no longer finds them where they
    were. *)
Theorem unnamed_section_is_read_into_previous
    name (kvs1 kvs2 : list (string * string)) k v strDefaultValue :
  name ≠ "" → trimmed name → one_line name →
  saveable_keys kvs1 → saveable_keys kvs2 → NoDup kvs2.*1 →
  (k, v) ∈ kvs2 →
  let d := (LoadFromFile (Some (SaveToFile_text [(name, kvs1); ("", kvs2)])) ∅).2 in
  Get name k strDefaultValue d = v
  ∧ Get "" k strDefaultValue d = strDefaultValue.
Proof.
  intros Hname Htr Hol H1 H2 Hnd Hin. cbv zeta.
  rewrite LoadFromFile_saved.
  2: { apply Forall_cons; split; [cbn [fst snd]; auto|].
       apply Forall_cons; split; [|apply Forall_nil_2].
       cbn [fst snd]. split; [intros Hn; contradiction|].
       split; [reflexivity|exact H2]. }
  cbn [foldl]. unfold read_section. cbn [fst snd currentSection m_mapData].
  rewrite (bool_decide_eq_true_2 ("" = "")) by reflexivity.
  rewrite (bool_decide_eq_false_2 (name = "")) by exact Hname.
  cbn [currentSection m_mapData].
  rewrite !Get_lookup.
  rewrite !(lookup_fold_keys name kvs2) by exact Hnd.
  rewrite decide_True by reflexivity.
  rewrite decide_False by exact Hname.
  rewrite (proj1 (elem_of_list_to_map kvs2 k v Hnd) Hin).
  split; [reflexivity|].
  assert (∀ (kvs : list (string * string)) (d : gmap string (gmap string string)),
            d !! "" = None →
            foldl (λ d kv, Set_ name kv.1 kv.2 d) d kvs !! "" = None) as Hnone.
  { induction kvs as [|kv kvs IH]; intros d Hd; [exact Hd|].
    simpl. apply IH. unfold Set_. rewrite lookup_insert_ne by exact Hname.
    exact Hd. }
  rewrite Hnone by apply lookup_empty. reflexivity.
Qed.


End IniFile_more.

(** ** IniFile: the reader as a whole *)

Section IniFile_reader.
Import IniFile.
Implicit Types (s k v line : string) (c : ascii) (st : loader)
  (d : gmap string (gmap string string)).





End IniFile_reader.

(** ** TimeStamp: differences *)

Section TimeStamp_more.
Import TimeStamp.

(** X20.  For two time stamps whose difference neither overflows nor is
    the least [int64_t]: [DiffMilliseconds] is the difference in
    microseconds cut toward zero to whole milliseconds, so that it
    changes sign when the operands are exchanged; and [DiffSeconds] is
    [DiffMilliseconds] cut toward zero to whole seconds. *)
Theorem Diff_truncates_toward_zero (a b : TimeStamp.t) :
  - 2 ^ 63 < time_point_ a - time_point_ b < 2 ^ 63 →
  ∃ ms, DiffMilliseconds a b = Some ms
        ∧ DiffMilliseconds b a = Some (- ms)
        ∧ DiffSeconds a b = Some (ms ÷ 1000)
        ∧ Z.abs (time_point_ a - time_point_ b) - 1000 < 1000 * Z.abs ms
        ∧ 1000 * Z.abs ms ≤ Z.abs (time_point_ a - time_point_ b)
        ∧ 0 ≤ ms * (time_point_ a - time_point_ b).
Proof.
  intros Hr. unfold DiffMilliseconds, DiffSeconds, in_int64. cbv zeta.
  set (d := time_point_ a - time_point_ b) in *.
  replace (time_point_ b - time_point_ a) with (- d) by (subst d; lia).
  rewrite !(proj2 (andb_true_iff _ _))
    by (split; [apply Z.leb_le | apply Z.ltb_lt]; lia).
  exists (d ÷ 1000).
  split; [reflexivity|]. split; [rewrite Z.quot_opp_l by lia; reflexivity|].
  split; [rewrite Z.quot_quot by lia; reflexivity|].
  clearbody d. Z.quot_rem_to_equations. lia.
Qed.

End TimeStamp_more.

(** * The code at concrete inputs *)

(** C1 (the code at the failing input).  In each of the three registries,
    after a handler [first] and then a handler [second] have been
    registered under one key, the dispatch of an event with that key runs
    [first] and does not run [second]. *)
Theorem Register_twice_first_handler_runs :
  let SIGUSR2 := 12 in
  let Now := λ _ : list string, 0 in
  ran (ProcessBase.vDispatchTimer Now (mk_TimerEvent 7)
         (ProcessBase.RegisterTimer 7 (says "second")
            (ProcessBase.RegisterTimer 7 (says "first") fresh_process)))
    = Some ["first"]
  ∧ ran (ProcessBase.vDispatchMessage Now (mk_MessageEvent "ping" None)
           (ProcessBase.RegisterMessageHandler SIGUSR2 "ping" (says "second")
              (ProcessBase.RegisterMessageHandler SIGUSR2 "ping" (says "first")
                 fresh_process)))
    = Some ["first"]
  ∧ ran (do s1 <- ProcessBase.RegisterSignalHandler SIGUSR2 15 (says "first")
                    fresh_process;
         do s2 <- ProcessBase.RegisterSignalHandler SIGUSR2 15 (says "second") s1;
         ProcessBase.vDispatchSignal Now (mk_SignalEvent 15) s2)
    = Some ["first"].
Proof. vm_compute. repeat split. Qed.

(** C2 (the code at the failing input).  The dispatch of a message named
    [ping] in a process without message handlers posts the alert and the
    [Handler Begin] line and then reads [itr->second] of the end iterator:
    the dispatch does not stop after the alert, its behaviour is undefined,
    and so is that of the loop of [vRunProcess] that takes the message
    from the queue.  The dispatch of a timer event without handler posts
    its alert and returns. *)
Theorem vDispatchMessage_without_handler_is_undefined :
  let Now := λ _ : list string, 0 in
  let cEvent := mk_MessageEvent "ping" (Some [Byte.x01; Byte.x02; Byte.x03]) in
  let at_fault :=
    ProcessBase.LCC_LOG_DEBUG "EventName[%s] Handler Begin."
      [Logger.ArgStr "ping"]
      (ProcessBase.LCC_LOG_ALERT "No handler registered for EventName[%s]"
         [Logger.ArgStr "ping"] fresh_process) in
  ProcessBase.vDispatchMessage Now cEvent fresh_process = Undefined at_fault
  ∧ ProcessBase.vRunProcess Now [[]] (EvMessage (mk_MessageEvent "" None))
      (EventDriven.mk (LockedQueue.mk [EvMessage cEvent] false) [] fresh_process)
    = EventDriven.RunUndefined
        (EventDriven.mk (LockedQueue.mk [] false) [] at_fault)
  ∧ ProcessBase.vDispatchTimer Now (mk_TimerEvent 7) fresh_process
    = Normal (ProcessBase.LCC_LOG_ALERT "No handler registered for TimerId[%lu]"
                [Logger.ArgInt 7] fresh_process).
Proof.
  split; [|split].
  - apply (vDispatchMessage_missing (λ _, 0)). reflexivity.
  - reflexivity.
  - apply (vDispatchTimer_missing (λ _, 0)). reflexivity.
Qed.

Lemma Deq_yields_enqueued_in_order_witness :
  let calls1 := [(0, []); (100, [LockedQueue.OtherEnq 9%nat])] in
  let calls2 := [(0, [])] in
  let calls3 := [(0, []); (100, []); (7, [LockedQueue.OtherEnq 8%nat])] in
  let '(bs, q1) := LockedQueue.EnqAll ([1; 2] ++ [3])%nat LockedQueue.create in
  let '(rs1, q2) := LockedQueue.DeqAll calls1 0%nat q1 in
  let '(rs2, q3) := LockedQueue.DeqAll calls2 0%nat (LockedQueue.Shutdown q2) in
  let '(rs3, q4) := LockedQueue.DeqAll calls3 0%nat q3 in
  bs = [true; true; true]
  ∧ rs1 = [(true, 1); (true, 2)]%nat
  ∧ rs2 = [(true, 3)]%nat
  ∧ rs3 = [(false, 0); (false, 0); (false, 0)]%nat
  ∧ LockedQueue.m_que q3 = [] ∧ q4 = q3.
Proof.
  exact (Deq_yields_enqueued_in_order [1; 2]%nat [3]%nat
           [(0, []); (100, [LockedQueue.OtherEnq 9%nat])] [(0, [])]
           [(0, []); (100, []); (7, [LockedQueue.OtherEnq 8%nat])]
           0%nat 0%nat 0%nat eq_refl eq_refl).
Defined.

Lemma Run_contains_callback_failure_witness :
  let Run_ :=
    EventDriven.Run throws_on_zero EventDriven.LogOnEventException_default
      EventDriven.LogOnEventException0_default (λ _, true) 100 in
  Run_ [[]; []; []] 7%nat loop_start
  = Run_ [[]; []] 0%nat
      (EventDriven.mk (LockedQueue.mk [0; 5]%nat false)
         ["Exception in OnEvent: zero"] 1%nat)
  ∧ ∀ e1 s1, Run_ [[]; []; []] 7%nat loop_start ≠ EventDriven.RunThrows e1 s1.
Proof.
  exact (Run_contains_callback_failure throws_on_zero
           EventDriven.LogOnEventException_default
           EventDriven.LogOnEventException0_default (λ _, true) 100
           [] [[]; []] 7%nat loop_start 0%nat (LockedQueue.mk [0; 5]%nat false)
           (std_exception "zero")
           (EventDriven.mk (LockedQueue.mk [0; 5]%nat false) [] 1%nat)
           eq_refl eq_refl eq_refl).
Defined.

(** The whole run of that loop: both failures are logged, the third
    event is handled, and the loop is at its head again. *)
Example Run_after_two_failures :
  EventDriven.Run throws_on_zero EventDriven.LogOnEventException_default
    EventDriven.LogOnEventException0_default (λ _, true) 100
    [[]; []; []] 7%nat loop_start
  = EventDriven.RunLooping 5%nat
      (EventDriven.mk (LockedQueue.mk [] false)
         ["Exception in OnEvent: zero"; "Unknown Exception in OnEvent"] 3%nat).
Proof. reflexivity. Qed.

Lemma Wait_single_waiter_witness :
  let sleeps := [[Signal.Raised 12; Signal.Delivered 15]; []] in
  let entered := Signal.mk 0 true ({[12]} ∪ ({[15]} ∪ ∅)) in
  match Signal.Wait linux_catchable linux_fatal [15; 12] sleeps Signal.initial with
  | Signal.WaitReturn sn g' =>
      sn ≠ 0 ∧ Signal.g_snSignal g' = 0 ∧ Signal.g_bWaitInUse g' = false
      ∧ (∀ listSignal' sleeps' e g'',
           Signal.Wait linux_catchable linux_fatal listSignal' sleeps' g'
           ≠ Signal.WaitThrows e g'')
      ∧ ∃ slept rest gp,
          sleeps = slept ++ rest
          ∧ Signal.sleep_for linux_fatal (concat slept) entered = Signal.Lives gp
          ∧ (∀ k gk, (k < length slept)%nat →
                     Signal.sleep_for linux_fatal (concat (take k slept)) entered
                     = Signal.Lives gk →
                     Signal.g_snSignal gk = 0)
          ∧ sn = Signal.g_snSignal gp
          ∧ g' = Signal.mk 0 false (Signal.installed gp)
  | Signal.WaitThrows _ _ => False
  | Signal.WaitPolling g' =>
      Signal.g_snSignal g' = 0 ∧ Signal.g_bWaitInUse g' = true
  | Signal.WaitEnded g' =>
      ∃ n, Signal.Delivered n ∈ concat sleeps ∧ linux_fatal n = true
           ∧ n ∉ Signal.installed g'
  end.
Proof.
  exact (proj2 (Wait_single_waiter linux_catchable linux_fatal [15; 12]
                  [[Signal.Raised 12; Signal.Delivered 15]; []] Signal.initial)).
Defined.

(** A wait that sleeps twice before a signal of its set is delivered; a
    second wait entered while the flag is set; a wait during which a
    signal without handler ends the process; and SIGKILL, for which no
    handler can be set. *)
Example Wait_after_two_sleeps :
  Signal.Wait linux_catchable linux_fatal [15; 12]
    [[Signal.Delivered 17]; [Signal.Delivered 15]] Signal.initial
  = Signal.WaitReturn 15 (Signal.mk 0 false ({[15]} ∪ ({[12]} ∪ ∅)))
  ∧ Signal.Wait linux_catchable linux_fatal [15] [] (Signal.mk 0 true ∅)
    = Signal.WaitThrows
        (std_logic_error "LCC::Signal::Wait called while another Wait is in progress")
        (Signal.mk 0 true ∅)
  ∧ Signal.Wait linux_catchable linux_fatal [15; 12]
      [[Signal.Delivered 1]; [Signal.Delivered 15]] Signal.initial
    = Signal.WaitEnded (Signal.mk 0 true ({[15]} ∪ ({[12]} ∪ ∅)))
  ∧ Signal.Wait linux_catchable linux_fatal [9] [[Signal.Delivered 9]] Signal.initial
    = Signal.WaitEnded (Signal.mk 0 true ∅).
Proof. repeat split; reflexivity. Qed.

(** C7 (counterexample to "overwritten with that number, whatever the
    value passed").  [Raise(0)] on a slot that holds 5 leaves 5 there, not
    the value passed; [Raise(2^32 + 5)] stores 5. *)
Lemma Raise_zero_does_not_overwrite :
  Signal.g_snSignal (Signal.Raise 0 (Signal.mk 5 false ∅)) ≠ 0
  ∧ Signal.g_snSignal (Signal.Raise (2 ^ 32 + 5) Signal.initial) ≠ 2 ^ 32 + 5.
Proof. split; vm_compute; discriminate. Qed.

Lemma Raise_overwrites_unless_zero_witness :
  let g := Signal.mk 5 true {[15]} in
  Signal.g_snSignal (Signal.Raise 12 g) = 12
  ∧ Signal.g_snSignal (Signal.Raise 0 g) = 5.
Proof.
  split.
  - apply (Raise_overwrites_unless_zero 12 (Signal.mk 5 true {[15]}));
      [discriminate | lia].
  - exact (proj1 (Raise_overwrites_unless_zero 0 (Signal.mk 5 true {[15]}))).
Defined.

Lemma load_line_and_Get_witness :
  let st := IniFile.mk ∅ "Log" in
  IniFile.load_line st " Mask = 0x0F  "
  = IniFile.mk (IniFile.Set_ "Log" "Mask" "0x0F" ∅) "Log"
  ∧ ∀ strDefaultValue,
      IniFile.Get "Log" "Mask" strDefaultValue
        (IniFile.m_mapData (IniFile.load_line st " Mask = 0x0F  ")) = "0x0F".
Proof.
  refine (proj1 (proj2 (proj2 (proj2 (proj2
            (load_line_and_Get (IniFile.mk ∅ "Log") " Mask = 0x0F  ")))))
          " Mask " " 0x0F  " eq_refl eq_refl _ _ _);
    vm_compute; [discriminate | discriminate | intros [? ?]; discriminate].
Defined.


Example LoadFromFile_sample :
  let d := (IniFile.LoadFromFile (Some sample_ini) ∅).2 in
  (IniFile.LoadFromFile (Some sample_ini) ∅).1 = true
  ∧ IniFile.Get "Log" "Mask" "0xFFFFFFFF" d = "0x0F"
  ∧ IniFile.Get "Log" "ExpireSec" "0" d = "3=4"
  ∧ IniFile.Get "" "a" "" d = "b"
  ∧ IniFile.Get "Log" "LogDir" "../log" d = "../log"
  ∧ IniFile.Get "x" "a" "none" d = "none"
  ∧ IniFile.LoadFromFile None d = (false, d).
Proof. vm_compute. repeat split. Qed.

(** ** The further properties at concrete inputs *)

Lemma Deq_takes_item_of_waking_Enq_witness :
  LockedQueue.Deq 0%nat 0 [LockedQueue.OtherEnq 4%nat; LockedQueue.OtherShutdown]
    LockedQueue.create
  = LockedQueue.DeqReturn true 4%nat LockedQueue.create.
Proof.
  exact (Deq_takes_item_of_waking_Enq 0%nat 0 4%nat [LockedQueue.OtherShutdown]
           LockedQueue.create eq_refl eq_refl).
Defined.

Lemma Deq_released_by_Shutdown_witness :
  LockedQueue.Deq 0%nat 0 [LockedQueue.OtherShutdown; LockedQueue.OtherEnq 4%nat]
    LockedQueue.create
  = LockedQueue.DeqReturn false 0%nat (LockedQueue.mk [] true).
Proof.
  exact (Deq_released_by_Shutdown 0%nat 0 [LockedQueue.OtherEnq 4%nat]
           LockedQueue.create eq_refl eq_refl).
Defined.

Lemma Deq_times_out_witness :
  LockedQueue.Deq 0%nat 100 [] LockedQueue.create
  = LockedQueue.DeqReturn false 0%nat LockedQueue.create
  ∧ LockedQueue.Deq 0%nat 0 [] LockedQueue.create
    = LockedQueue.DeqBlocked LockedQueue.create.
Proof.
  split.
  - exact (Deq_times_out 0%nat 100 LockedQueue.create eq_refl eq_refl).
  - exact (Deq_times_out 0%nat 0 LockedQueue.create eq_refl eq_refl).
Defined.

Lemma Run_handles_queue_in_order_witness :
  EventDriven.Run throws_on_zero EventDriven.LogOnEventException_default
    EventDriven.LogOnEventException0_default (λ _, true) 100
    [[]; [LockedQueue.OtherShutdown]; []] 7%nat loop_start
  = EventDriven.RunLooping 5%nat
      (EventDriven.mk (LockedQueue.mk [] false)
         ["Exception in OnEvent: zero"; "Unknown Exception in OnEvent"] 3%nat).
Proof.
  refine (proj1 (Run_handles_queue_in_order throws_on_zero
                   EventDriven.LogOnEventException_default
                   EventDriven.LogOnEventException0_default (λ _, true) 100
                   [0; 0; 5]%nat [[]; [LockedQueue.OtherShutdown]; []] 7%nat
                   loop_start _ (λ _, eq_refl) eq_refl eq_refl)).
  split; [|split; reflexivity].
  intros [|msg] [q c [|d]]; reflexivity.
Defined.

Lemma Wait_returns_last_of_sleep_witness :
  Signal.Wait linux_catchable linux_fatal [15; 12]
    [[Signal.Delivered 17; Signal.Raised 12; Signal.Delivered 15]] Signal.initial
  = Signal.WaitReturn 15 (Signal.mk 0 false ({[15]} ∪ ({[12]} ∪ ∅))).
Proof.
  refine (eq_trans
            (Wait_returns_last_of_sleep linux_catchable linux_fatal [15; 12]
               [Signal.Delivered 17; Signal.Raised 12] (Signal.Delivered 15) 15 []
               Signal.initial (Signal.mk 12 false ({[15]} ∪ ({[12]} ∪ ∅)))
               eq_refl eq_refl _ _ _ _) _).
  - discriminate.
  - lia.
  - vm_compute. reflexivity.
  - right. split; [reflexivity|]. split; [apply list_elem_of_here | reflexivity].
  - vm_compute. reflexivity.
Defined.

Lemma Wait_depends_on_set_of_signals_witness :
  Signal.Wait linux_catchable linux_fatal [15; 12; 15] [[Signal.Delivered 12]]
    Signal.initial
  = Signal.Wait linux_catchable linux_fatal [12; 15] [[Signal.Delivered 12]]
      Signal.initial.
Proof.
  apply (Wait_depends_on_set_of_signals linux_catchable linux_fatal
           [15; 12; 15] [12; 15]).
  vm_compute. reflexivity.
Defined.

Lemma vDispatchSignal_uses_event_number_witness :
  ran (ProcessBase.vDispatchSignal (λ _, 0) (mk_SignalEvent (-3)) handling_process)
  = Some ["negative"].
Proof.
  rewrite (vDispatchSignal_uses_event_number (λ _, 0) (mk_SignalEvent (-3))
             handling_process) by (cbn; lia).
  reflexivity.
Defined.

Lemma registration_overwrites_pending_signal_witness :
  let s := ProcessBase.with_signals (Signal.mk 15 false ∅) fresh_process in
  Signal.g_snSignal
    (ProcessBase.signals (ProcessBase.RegisterMessageHandler 12 "ping" (says "pong") s))
  = 12.
Proof.
  intros s.
  refine (proj1 (registration_overwrites_pending_signal 12 (λ w, Normal w) s
                   (EventDriven.mk LockedQueue.create [] s) _ _)
            "ping" (says "pong")); [discriminate | lia].
Defined.

Lemma WriteFormatWithContext_follows_mask_witness :
  let lg := Logger.mk 32 LockedQueue.create in
  LockedQueue.m_que (Logger.m_queMessage (Logger.WriteFormatWithContext 5 "up" [] lg))
  = [Logger.mk_line 32 "up" []]
  ∧ Logger.WriteFormatWithContext 4 "up" [] lg = lg.
Proof.
  intros lg. split.
  - rewrite (WriteFormatWithContext_follows_mask 5 "up" [] lg) by lia. reflexivity.
  - rewrite (WriteFormatWithContext_follows_mask 4 "up" [] lg) by lia. reflexivity.
Defined.

Lemma RegisterCustomLogKindLabel_spares_reserved_witness :
  let r := Logger.RegisterCustomLogKindLabel 16 (Some "AUDIT") (replicate 32 "") in
  r.2 !! 16%nat = Some "AUDIT          " ∧ r.2 !! 3%nat = Some "".
Proof.
  intros r.
  destruct (RegisterCustomLogKindLabel_spares_reserved 16 (Some "AUDIT")
              (replicate 32 "") ltac:(lia) eq_refl) as (_ & _ & _ & H4 & H5).
  split.
  - exact (proj1 (H5 "AUDIT" eq_refl eq_refl)).
  - exact (H4 3%nat ltac:(lia)).
Defined.

Lemma InitLogKindLabels_fills_table_witness :
  Forall (λ label, String.length label = 15%nat)
    (Logger.InitLogKindLabels (replicate 32 "junk")).
Proof.
  exact (proj1 (proj2 (InitLogKindLabels_fills_table (replicate 32 "junk") eq_refl))).
Defined.

Lemma StopTimer_does_not_cancel_witness :
  (TimerManager.wake 0
     (TimerManager.StopTimer 7 (TimerManager.StartTimer 7 100 5%nat TimerManager.create))
     (Some (EventDriven.mk LockedQueue.create [] tt))).2
  = Some (EventDriven.mk (LockedQueue.mk [5%nat] false) [] tt).
Proof.
  exact (f_equal snd
           (StopTimer_does_not_cancel 7 100 5%nat TimerManager.create
              (EventDriven.mk LockedQueue.create [] tt) eq_refl)).
Defined.

Lemma StartTimer_again_delivers_both_witness :
  let r := EventDriven.mk LockedQueue.create [] tt in
  let tm2 :=
    TimerManager.StartTimer 7 50 2%nat
      (TimerManager.StartTimer 7 100 1%nat TimerManager.create) in
  let after_first := TimerManager.wake 0 tm2 (Some r) in
  let after_both := TimerManager.wake 1 after_first.1 after_first.2 in
  TimerManager.m_mapTimers after_first.1 !! 7 = None
  ∧ ∃ r', after_both.2 = Some r'
          ∧ LockedQueue.m_que (EventDriven.m_queEvent r') = [1; 2]%nat.
Proof.
  intros r tm2 after_first after_both.
  destruct (StartTimer_again_delivers_both 7 100 50 1%nat 2%nat TimerManager.create r
              eq_refl eq_refl) as (_ & H2 & _ & _ & H5).
  split; [exact H2 | exact H5].
Defined.

Lemma Diff_truncates_toward_zero_witness :
  ∃ ms,
    TimeStamp.DiffMilliseconds (TimeStamp.FromEpochMicro 1500)
      (TimeStamp.FromEpochMicro 4000) = Some ms
    ∧ TimeStamp.DiffMilliseconds (TimeStamp.FromEpochMicro 4000)
        (TimeStamp.FromEpochMicro 1500) = Some (- ms)
    ∧ TimeStamp.DiffSeconds (TimeStamp.FromEpochMicro 1500)
        (TimeStamp.FromEpochMicro 4000) = Some (ms ÷ 1000).
Proof.
  destruct (Diff_truncates_toward_zero (TimeStamp.FromEpochMicro 1500)
              (TimeStamp.FromEpochMicro 4000) ltac:(cbn; lia))
    as (ms & H1 & H2 & H3 & _).
  exists ms. split; [exact H1 | split; [exact H2 | exact H3]].
Defined.

Lemma delivered_signal_reaches_handler_witness :
  ∃ o',
    ProcessBase.vSignalWaitThread 12 linux_catchable linux_fatal
      [[[Signal.Raised 12; Signal.Delivered 15]]] handling_object
    = ProcessBase.ThreadAtHead o'
    ∧ LockedQueue.m_que (EventDriven.m_queEvent o') = [EvSignal (mk_SignalEvent 15)].
Proof.
  destruct (delivered_signal_reaches_handler 12 (λ _, 0) linux_catchable linux_fatal
              15 (says "term") [Signal.Raised 12] [] handling_object
              (Signal.mk 12 false ({[15]} ∪ ({[12]} ∪ ∅)))
              eq_refl eq_refl eq_refl eq_refl eq_refl
              ltac:(discriminate) ltac:(discriminate) ltac:(lia) eq_refl
              ltac:(vm_compute; reflexivity))
    as (o' & H1 & H2 & _).
  exists o'. split; [exact H1 | exact H2].
Defined.

Lemma started_timer_reaches_handler_witness :
  ∃ s1 tm1 tm2 o',
    ProcessBase.vStartTimer 7 100 handling_process (Some TimerManager.create)
    = (s1, Some tm1)
    ∧ TimerManager.wake 0 tm1 (Some (ProcessBase.with_derived s1 handling_object))
      = (tm2, Some o')
    ∧ LockedQueue.m_que (EventDriven.m_queEvent o') = [EvTimer (mk_TimerEvent 7)].
Proof.
  destruct (started_timer_reaches_handler (λ _, 0) 7 100 (says "tick")
              TimerManager.create handling_object eq_refl eq_refl eq_refl)
    as (s1 & tm1 & tm2 & o' & H1 & _ & H3 & _ & H5 & _).
  exists s1, tm1, tm2, o'. split; [exact H1 | split; [exact H3 | exact H5]].
Defined.

Lemma LoadFromFile_keeps_keys_witness :
  is_Some ((IniFile.LoadFromFile (Some sample_ini)
              (IniFile.Set_ "Log" "LogDir" "../log" ∅)).2 !! "Log"
           ≫= (λ m, m !! "LogDir")).
Proof.
  refine (proj1 (LoadFromFile_keeps_keys (Some sample_ini)
                   (IniFile.Set_ "Log" "LogDir" "../log" ∅) "Log" "LogDir" _)).
  exists "../log". reflexivity.
Defined.

Lemma load_line_ignores_padding_witness :
  IniFile.load_line (IniFile.mk ∅ "Log")
    (String " " (String "009" "") +:+ "Mask = 0x0F" +:+ String " " (String "013" ""))
  = IniFile.load_line (IniFile.mk ∅ "Log") "Mask = 0x0F".
Proof.
  exact (load_line_ignores_padding (IniFile.mk ∅ "Log")
           (String " " (String "009" "")) "Mask = 0x0F"
           (String " " (String "013" "")) eq_refl eq_refl).
Defined.

Lemma getlines_reads_the_lines_witness :
  IniFile.getlines (unlines ["[Log]"; "Mask=0x0F"] +:+ "Dir=../log")
  = ["[Log]"; "Mask=0x0F"; "Dir=../log"].
Proof.
  refine (proj2 (getlines_reads_the_lines ["[Log]"; "Mask=0x0F"] "Dir=../log" _ _ _)).
  - repeat constructor.
  - reflexivity.
  - discriminate.
Defined.

Lemma LoadFromFile_reads_back_SaveToFile_witness :
  IniFile.Get "Log" "Mask" "none"
    (IniFile.LoadFromFile (Some (IniFile.SaveToFile_text sample_order)) ∅).2
  = "0x0F".
Proof.
  refine (proj2 (LoadFromFile_reads_back_SaveToFile
                   (list_to_map ((λ sec, (sec.1, list_to_map sec.2)) <$> sample_order))
                   sample_order ∅ "Log" "Mask" "none" _ _)).
  - split; [|split; [|reflexivity]].
    + apply (bool_decide_unpack _). vm_compute. exact I.
    + repeat constructor; apply (bool_decide_unpack _); vm_compute; exact I.
  - repeat (constructor || split); try reflexivity; discriminate.
Defined.

Lemma unnamed_section_is_read_into_previous_witness :
  let d :=
    (IniFile.LoadFromFile
       (Some (IniFile.SaveToFile_text [("Log", [("Mask", "1")]); ("", [("Top", "yes")])]))
       ∅).2 in
  IniFile.Get "Log" "Top" "none" d = "yes" ∧ IniFile.Get "" "Top" "none" d = "none".
Proof.
  refine (unnamed_section_is_read_into_previous "Log" [("Mask", "1")] [("Top", "yes")]
            "Top" "yes" "none" _ _ _ _ _ _ _).
  - discriminate.
  - split; reflexivity.
  - reflexivity.
  - repeat (constructor || split); try reflexivity; discriminate.
  - repeat (constructor || split); try reflexivity; discriminate.
  - apply (bool_decide_unpack _). vm_compute. exact I.
  - apply list_elem_of_here.
Defined.
